(** * Tracing adapters of dd-trace-go: the grpc.v12 interceptors and the
      database/sql registration wrapper

    The development embeds [contrib/google.golang.org/grpc.v12/grpc.go]
    (functions [UnaryServerInterceptor], [startSpanFromContext] and
    [UnaryClientInterceptor]) as state-passing Rocq functions and proves the
    properties the specification states about them.

    Layout:
    - [Go]      : slices over a store of backing arrays ([make], [copy],
                  [append]), Go errors;
    - [Net], [Grpc] : the pieces of the Go standard library and of
                  google.golang.org/grpc the adapter calls;
    - [Ext], [Tracer] : the tracer collaborator (tags, start and finish
                  options, a recording tracer, text-map propagation);
    - [GrpcV12] : the adapter itself, function by function;
    - [Sql]     : driver registration and the traced connector;
    - the theorems of the specification, then further properties read off
      grpc.go. *)

From Stdlib Require Import String Ascii NArith ZArith QArith_base.
From Stdlib Require Import DecimalString DecimalN DecimalPos.
From stdpp Require Import base option list gmap strings.

Local Open Scope string_scope.
Local Open Scope list_scope.
Local Open Scope nat_scope.

(* ===================================================================== *)
(** ** Go: errors and slices *)
(* ===================================================================== *)

Module Go.

(** A slice header: a pointer to a backing array, an offset into it, a
    length and a capacity.  The [nil] slice has length and capacity 0, so
    that its pointer is never followed. *)
Record Slice : Type := mkSlice {
  sArr : positive;
  sOff : nat;
  sLen : nat;
  sCap : nat
}.

Definition nilSlice : Slice := mkSlice 1%positive 0 0 0.

(** The store of backing arrays.  A cell is [None] when it holds the zero
    value of the element type (for a func type: [nil]). *)
Abbreviation Heap T := (gmap positive (list (option T))).

Section slices.
Context {T : Type}.

(** The array behind a pointer (no cells when nothing is allocated
    there). *)
Definition backing (h : Heap T) (l : positive) : list (option T) :=
  default [] (h !! l).

(** [s[0:len(s)]] *)
Definition elems (h : Heap T) (s : Slice) : list (option T) :=
  take (sLen s) (drop (sOff s) (backing h (sArr s))).

(** What the type system guarantees of every slice value. *)
Definition valid (h : Heap T) (s : Slice) : Prop :=
  sLen s ≤ sCap s ∧ sOff s + sCap s ≤ length (backing h (sArr s)).

(** [make([]T, n, c)]: a new array of [c] zero cells. *)
Definition make (n c : nat) (h : Heap T) : Slice * Heap T :=
  let l := fresh (dom h) in
  (mkSlice l 0 n c, <[l := replicate c None]> h).

(** [copy(dst, src)]: the first [min(len(dst), len(src))] cells. *)
Definition copy (dst src : Slice) (h : Heap T) : nat * Heap T :=
  let n := Nat.min (sLen dst) (sLen src) in
  (n, alter (list_inserts (sOff dst) (take n (elems h src))) (sArr dst) h).

(** Capacity of the array [append] allocates when it has to grow: at
    least what is needed, at least twice the old capacity. *)
Definition growCap (oldcap needed : nat) : nat :=
  Nat.max needed (2 * oldcap).

(** [append(s, xs...)]: written in place while the capacity allows it,
    otherwise into a new, larger array. *)
Definition append (s : Slice) (xs : list T) (h : Heap T) : Slice * Heap T :=
  let n := sLen s + length xs in
  if decide (n ≤ sCap s) then
    (mkSlice (sArr s) (sOff s) n (sCap s),
     alter (list_inserts (sOff s + sLen s) (Some <$> xs)) (sArr s) h)
  else
    let c := growCap (sCap s) n in
    let l := fresh (dom h) in
    (mkSlice l 0 n c,
     <[l := (elems h s ++ (Some <$> xs)) ++ replicate (c - n) None]> h).

(** The slice the compiler builds for the arguments of a variadic call
    [f(x1, ..., xn)]. *)
Definition variadic (xs : list T) (h : Heap T) : Slice * Heap T :=
  let l := fresh (dom h) in
  (mkSlice l 0 (length xs) (length xs), <[l := Some <$> xs]> h).
End slices.

End Go.

(* ===================================================================== *)
(** ** The Go standard library and google.golang.org/grpc *)
(* ===================================================================== *)

Module Net.

Fixpoint indexByte (c : ascii) (s : string) : option nat :=
  match s with
  | EmptyString => None
  | String a s' =>
      if Ascii.eqb a c then Some 0 else S <$> indexByte c s'
  end.

Fixpoint lastIndexByte (c : ascii) (s : string) : option nat :=
  match s with
  | EmptyString => None
  | String a s' =>
      match lastIndexByte c s' with
      | Some i => Some (S i)
      | None => if Ascii.eqb a c then Some 0 else None
      end
  end.

(** [s[i:]] *)
Fixpoint from (i : nat) (s : string) : string :=
  match i, s with
  | S i', String _ s' => from i' s'
  | _, _ => s
  end.

(** [s[i:j]] *)
Definition slice (i j : nat) (s : string) : string :=
  String.substring i (j - i) s.

Definition contains (c : ascii) (s : string) : bool :=
  bool_decide (is_Some (indexByte c s)).

(** [net.SplitHostPort], after the standard library: the port starts after
    the last colon, a host in brackets may itself hold colons.  [None] is
    a non-nil error (the adapter only tests it against [nil]). *)
Definition SplitHostPort (hostport : string) : option (string * string) :=
  match lastIndexByte ":" hostport with
  | None => None                                    (* missing port *)
  | Some i =>
      let rest (host : string) (j k : nat) :=
        if contains "[" (from j hostport) then None
        else if contains "]" (from k hostport) then None
        else Some (host, from (i + 1) hostport) in
      match hostport with
      | String "[" _ =>
          match indexByte "]" hostport with
          | None => None                            (* missing ']' *)
          | Some e =>
              if Nat.eqb (e + 1) (String.length hostport) then None
              else if Nat.eqb (e + 1) i then rest (slice 1 e hostport) 1 (e + 1)
              else None
          end
      | _ =>
          let host := slice 0 i hostport in
          if contains ":" host then None            (* too many colons *)
          else rest host 0 0
      end
  end.

End Net.

Module Grpc.

(** [codes.Code] and its [String] method. *)
Inductive Code : Type :=
| OK | Canceled | Unknown | InvalidArgument | DeadlineExceeded | NotFound
| AlreadyExists | PermissionDenied | ResourceExhausted | FailedPrecondition
| Aborted | OutOfRange | Unimplemented | Internal | Unavailable | DataLoss
| Unauthenticated.

Definition Code_String (c : Code) : string :=
  match c with
  | OK => "OK" | Canceled => "Canceled" | Unknown => "Unknown"
  | InvalidArgument => "InvalidArgument"
  | DeadlineExceeded => "DeadlineExceeded" | NotFound => "NotFound"
  | AlreadyExists => "AlreadyExists"
  | PermissionDenied => "PermissionDenied"
  | ResourceExhausted => "ResourceExhausted"
  | FailedPrecondition => "FailedPrecondition" | Aborted => "Aborted"
  | OutOfRange => "OutOfRange" | Unimplemented => "Unimplemented"
  | Internal => "Internal" | Unavailable => "Unavailable"
  | DataLoss => "DataLoss" | Unauthenticated => "Unauthenticated"
  end.

(** A non-nil Go error: one made by the RPC system, which carries a
    status code, or any other one. *)
Inductive GoError : Type :=
| RpcError (c : Code) (desc : string)
| ErrorString (msg : string).

(** The Go type [error]; [None] is [nil]. *)
Abbreviation error := (option GoError).

(** [grpc.Code(err)] *)
Definition CodeOf (err : error) : Code :=
  match err with
  | None => OK
  | Some (RpcError c _) => c
  | Some (ErrorString _) => Unknown
  end.

(** [metadata.MD] is [map[string][]string]. *)
Abbreviation MD := (gmap string (list string)).

(** [peer.Peer]; [Addr] is [None] for a nil [net.Addr], otherwise what
    its [String] method returns. *)
Record Peer : Type := mkPeer { Addr : option string }.

(** [grpc.CallOption]: the option [grpc.Peer(&p)] the client interceptor
    adds, or one of the caller's. *)
Inductive CallOption : Type :=
| PeerOption
| CallerOption (n : nat).

Record UnaryServerInfo : Type := mkInfo { FullMethod : string }.

End Grpc.

(* ===================================================================== *)
(** ** The tracer collaborator *)
(* ===================================================================== *)

(** Modelled from the spec: the tag names and values of package
    [ddtrace/ext], whose source is not under src/.  The tests that are
    (stats_client_test.go, lines 52-58) read the same keys as string
    literals: ["span.type"], ["service.name"], ["resource.name"]. *)
Module Ext.
Definition ServiceName : string := "service.name".
Definition ResourceName : string := "resource.name".
Definition SpanType : string := "span.type".
Definition Error : string := "error".
Definition Component : string := "component".
Definition SpanKind : string := "span.kind".
Definition SpanKindServer : string := "server".
Definition SpanKindClient : string := "client".
Definition AppTypeRPC : string := "rpc".
Definition SpanTypeSQL : string := "sql".
Definition TargetHost : string := "out.host".
Definition TargetPort : string := "out.port".
Definition keyMeasured : string := "_dd.measured".
End Ext.

(** Modelled from the spec: the tracer collaborator of section 6
    ([StartSpanFromContext(ctx, name, ...opts) -> (span, ctx)],
    [span.Finish(...opts)], [span.SetTag(key, value)],
    [Inject(spanContext, carrier)], [Extract(carrier) -> spanContext]) and
    the carrier over RPC metadata.  Packages [ddtrace], [ddtrace/tracer],
    [ddtrace/mocktracer] and [internal/grpcutil] are not under src/.  The
    tracer below is a recording one, as the tests use: it keeps every span
    it was asked to start, with its tags and parent, and the sequence of
    calls made to it.  Where the spec gives only the signature, the model
    takes the following:
    - a span started from a context that carries an active span is a child
      of that span (the test expects the [ParentID] of the span of a call
      made with the context of [rootSpan] to be the identifier of
      [rootSpan]); a later [ChildOf] overrides an earlier one;
    - start options are applied in order, a nil option is skipped;
    - the error given to [Finish] becomes the tag ["error"];
    - the trace context travels as two metadata values, the trace and span
      identifiers in decimal; [Extract] fails when one is absent, zero or
      not a number. *)
Module Tracer.
Import Go Grpc.

(** A tag value ([interface{}] in Go): the kinds the adapters store. *)
Inductive TagValue : Type :=
| VString (s : string)
| VInt (n : Z)
| VError (e : GoError).

(** Identifiers are never 0: 0 means "none" on the wire and as parent. *)
Record SpanContext : Type := mkSpanContext {
  TraceID : positive;
  SpanID : positive
}.

(** A span, as the adapter holds it: a reference to the span object the
    tracer keeps.  [span.Context()] is [SpanCtx]. *)
Record Span : Type := mkSpan { SpanCtx : SpanContext }.

Record StartSpanConfig : Type := mkStartCfg {
  Parent : option SpanContext;
  Tags : gmap string TagValue
}.

(** [ddtrace.StartSpanOption]: a function that updates a [StartSpanConfig]. *)
Definition StartSpanOption : Type := StartSpanConfig → StartSpanConfig.

Definition Tag (k : string) (v : TagValue) : StartSpanOption :=
  λ cfg, mkStartCfg (Parent cfg) (<[k := v]> (Tags cfg)).
Definition ServiceName (name : string) : StartSpanOption :=
  Tag Ext.ServiceName (VString name).
Definition ResourceName (name : string) : StartSpanOption :=
  Tag Ext.ResourceName (VString name).
Definition SpanType (name : string) : StartSpanOption :=
  Tag Ext.SpanType (VString name).
Definition Measured : StartSpanOption :=
  Tag Ext.keyMeasured (VInt 1).
Definition ChildOf (ctx : SpanContext) : StartSpanOption :=
  λ cfg, mkStartCfg (Some ctx) (Tags cfg).

Record FinishConfig : Type := mkFinishCfg { Error : error }.
Definition FinishOption : Type := FinishConfig → FinishConfig.
Definition WithError (err : error) : FinishOption :=
  λ _, mkFinishCfg err.

(** [context.Context], as far as the adapters look into it: the active
    span and the RPC metadata it carries. *)
Record Context : Type := mkContext {
  ctxSpan : option Span;
  ctxMD : option MD
}.

Definition Background : Context := mkContext None None.
Definition SpanFromContext (ctx : Context) : option Span := ctxSpan ctx.
Definition ContextWithSpan (ctx : Context) (s : Span) : Context :=
  mkContext (Some s) (ctxMD ctx).

(** The span object the tracer keeps. *)
Record MockSpan : Type := mkMockSpan {
  msName : string;
  msContext : SpanContext;
  msParentID : N;                 (* 0 for a root span *)
  msTags : gmap string TagValue;
  msFinished : bool
}.

(** The calls made to the tracer's interface, in order. *)
Inductive Call : Type :=
| CallStartSpan (operationName : string) (s : Span)
| CallSetTag (s : Span) (k : string) (v : TagValue)
| CallFinish (s : Span) (err : error).

Record MockTracer : Type := mkMockTracer {
  mtNextID : positive;
  mtSpans : gmap positive MockSpan;
  mtCalls : list Call
}.

Definition Start : MockTracer := mkMockTracer 1%positive ∅ [].

(** The object a span reference points to. *)
Definition spanOf (t : MockTracer) (s : Span) : MockSpan :=
  default (mkMockSpan "" (SpanCtx s) 0%N ∅ false)
          (mtSpans t !! SpanID (SpanCtx s)).

Definition addTag (k : string) (v : TagValue) (sp : MockSpan) : MockSpan :=
  mkMockSpan (msName sp) (msContext sp) (msParentID sp)
             (<[k := v]> (msTags sp)) (msFinished sp).

Definition markFinished (sp : MockSpan) : MockSpan :=
  mkMockSpan (msName sp) (msContext sp) (msParentID sp) (msTags sp) true.

(** The options are applied in order to an empty configuration; a nil
    option is skipped. *)
Definition applyStart (opts : list (option StartSpanOption)) : StartSpanConfig :=
  foldl (λ cfg o, match o with Some fn => fn cfg | None => cfg end)
        (mkStartCfg None ∅) opts.

Definition applyFinish (opts : list FinishOption) : FinishConfig :=
  foldl (λ cfg fn, fn cfg) (mkFinishCfg None) opts.

(** [StartSpan(operationName, opts...)]: a span with a new identifier; it
    joins the trace of the parent the options name, or starts one. *)
Definition StartSpan (operationName : string)
    (opts : list (option StartSpanOption)) (t : MockTracer) : Span * MockTracer :=
  let cfg := applyStart opts in
  let id := mtNextID t in
  let sc := mkSpanContext
              (match Parent cfg with Some p => TraceID p | None => id end) id in
  let sp := mkMockSpan operationName sc
              (match Parent cfg with Some p => Npos (SpanID p) | None => 0%N end)
              (Tags cfg) false in
  (mkSpan sc,
   mkMockTracer (Pos.succ id) (<[id := sp]> (mtSpans t))
                (mtCalls t ++ [CallStartSpan operationName (mkSpan sc)])).

(** [span.SetTag(k, v)] *)
Definition SetTag (s : Span) (k : string) (v : TagValue) (t : MockTracer) : MockTracer :=
  mkMockTracer (mtNextID t)
               (<[SpanID (SpanCtx s) := addTag k v (spanOf t s)]> (mtSpans t))
               (mtCalls t ++ [CallSetTag s k v]).

(** [span.Finish(opts...)]: the error of the finish configuration, when
    there is one, becomes the span's error tag; the span is marked
    finished. *)
Definition Finish (s : Span) (opts : list FinishOption) (t : MockTracer) : MockTracer :=
  let cfg := applyFinish opts in
  let sp := spanOf t s in
  let sp := match Error cfg with
            | Some e => addTag Ext.Error (VError e) sp
            | None => sp
            end in
  mkMockTracer (mtNextID t)
               (<[SpanID (SpanCtx s) := markFinished sp]> (mtSpans t))
               (mtCalls t ++ [CallFinish s (Error cfg)]).

(** *** Propagation through a text-map carrier over the metadata *)

Definition DefaultTraceIDHeader : string := "x-datadog-trace-id".
Definition DefaultParentIDHeader : string := "x-datadog-parent-id".

Definition ErrSpanContextNotFound : GoError :=
  ErrorString "span context not found".
Definition ErrSpanContextCorrupted : GoError :=
  ErrorString "span context corrupted".

(** [MDCarrier.Set]: the value is added to those of the key. *)
Definition MDCarrier_Set (key val : string) (md : MD) : MD :=
  <[key := default [] (md !! key) ++ [val]]> md.

(** What a reader that walks the carrier with [ForeachKey] is left with
    for a key: its last value. *)
Definition MDCarrier_read (key : string) (md : MD) : option string :=
  last (default [] (md !! key)).

Definition formatID (id : positive) : string :=
  NilEmpty.string_of_uint (Pos.to_uint id).

Definition parseID (s : string) : option N :=
  N.of_uint <$> NilEmpty.uint_of_string s.

(** The identifier under a key: 0 when the key is absent, an error when
    its value is not a number. *)
Definition readID (key : string) (md : MD) : N + GoError :=
  match MDCarrier_read key md with
  | None => inl 0%N
  | Some v =>
      match parseID v with
      | Some n => inl n
      | None => inr ErrSpanContextCorrupted
      end
  end.

(** [tracer.Inject(ctx, carrier)] *)
Definition Inject (sc : SpanContext) (md : MD) : MD * error :=
  (MDCarrier_Set DefaultParentIDHeader (formatID (SpanID sc))
     (MDCarrier_Set DefaultTraceIDHeader (formatID (TraceID sc)) md),
   None).

(** [tracer.Extract(carrier)] *)
Definition Extract (md : MD) : SpanContext + GoError :=
  match readID DefaultTraceIDHeader md with
  | inr e => inr e
  | inl t =>
      match readID DefaultParentIDHeader md with
      | inr e => inr e
      | inl p =>
          match t, p with
          | Npos tid, Npos pid => inl (mkSpanContext tid pid)
          | _, _ => inr ErrSpanContextNotFound
          end
      end
  end.

End Tracer.

(* ===================================================================== *)
(** ** The state the adapters run in *)
(* ===================================================================== *)

Module Run.
Import Go Grpc Tracer.

(** The memory holding the slices of start-span options, and the tracer. *)
Record World : Type := mkWorld {
  wHeap : Heap StartSpanOption;
  wTracer : MockTracer
}.

Definition M (A : Type) : Type := World → A * World.

Definition ret {A} (a : A) : M A := λ w, (a, w).
Definition bind {A B} (m : M A) (k : A → M B) : M B :=
  λ w, let '(a, w') := m w in k a w'.

(** Lifting of the memory and tracer operations. *)
Definition onHeap {A} (f : Heap StartSpanOption → A * Heap StartSpanOption) : M A :=
  λ w, let '(a, h) := f (wHeap w) in (a, mkWorld h (wTracer w)).
Definition onTracer (f : MockTracer → MockTracer) : M unit :=
  λ w, (tt, mkWorld (wHeap w) (f (wTracer w))).

(** [tracer.StartSpanFromContext(ctx, operationName, opts...)]: the
    options of the caller, then the active span of [ctx] as parent when
    there is one; the span is returned with a context that carries it. *)
Definition StartSpanFromContext (ctx : Context) (operationName : string)
    (opts : Slice) : M (Span * Context) :=
  λ w,
    let optsLocal :=
      elems (wHeap w) opts ++
      match SpanFromContext ctx with
      | Some s => [Some (ChildOf (SpanCtx s))]
      | None => []
      end in
    let '(s, t) := StartSpan operationName optsLocal (wTracer w) in
    ((s, ContextWithSpan ctx s), mkWorld (wHeap w) t).

(** [metadata.FromContext] and [metadata.NewContext] *)
Definition FromContext (ctx : Context) : MD * bool :=
  match ctxMD ctx with
  | Some md => (md, true)
  | None => (∅, false)              (* a nil map reads as an empty one *)
  end.
Definition NewContext (ctx : Context) (md : MD) : Context :=
  mkContext (ctxSpan ctx) (Some md).

End Run.

Declare Scope go_scope.
Delimit Scope go_scope with go.
Notation "x <- m ;; k" := (Run.bind m (fun x => k))
  (at level 100, m at next level, right associativity) : go_scope.
Notation "'let*' p := m 'in' k" :=
  (Run.bind m (fun x => match x with p => k end))
  (at level 100, p pattern, m at next level, right associativity) : go_scope.
Notation "m ;;; k" := (Run.bind m (fun _ => k))
  (at level 100, right associativity) : go_scope.

(* ===================================================================== *)
(** ** contrib/google.golang.org/grpc.v12/grpc.go *)
(* ===================================================================== *)

Module GrpcV12.
Import Go Grpc Tracer Run.
Local Open Scope go_scope.

(** Modelled from the spec: the tag names [tagMethod] and [tagCode] of
    the package (tags.go is not under src/; the test reads
    ["grpc.code"]). *)
Definition tagMethod : string := "grpc.method".
Definition tagCode : string := "grpc.code".

(** Modelled from the spec: [interceptorConfig], [InterceptorOption],
    [defaults] and the option constructors (option.go is not under src/):
    "options struct (service name, span options, ...) populated via a
    variadic list of option-functions applied in order".  Only the two
    fields grpc.go reads are kept; [defaults] leaves both at their zero
    value, as the fallback of lines 34 and 78 expects. *)
Record interceptorConfig : Type := mkConfig {
  serviceName : string;
  spanOpts : Slice
}.

Definition InterceptorOption : Type := interceptorConfig → interceptorConfig.

Definition defaults (cfg : interceptorConfig) : interceptorConfig := cfg.

Definition WithServiceName (name : string) : InterceptorOption :=
  λ cfg, mkConfig name (spanOpts cfg).
Definition WithSpanOptions (opts : Slice) : InterceptorOption :=
  λ cfg, mkConfig (serviceName cfg) opts.

Section interceptors.
(** [interface{}] values (requests, replies) and [*grpc.ClientConn]. *)
Context {Value ClientConn : Type}.

(** [grpc.UnaryHandler] *)
Definition UnaryHandler : Type := Context → Value → M (Value * error).

(** [grpc.UnaryInvoker].  It is handed [&p] through the call option
    [grpc.Peer(&p)]; the peer it returns here is what it left in [p]. *)
Definition UnaryInvoker : Type :=
  Context → string → Value → Value → ClientConn → list CallOption →
  M (error * Peer).

(** grpc.go, lines 50-69 *)
Definition startSpanFromContext (ctx : Context) (method service : string)
    (opts : Slice) : M (Span * Context) :=
  (* copy opts in case the caller reuses the slice in parallel *)
  optsLocal <- onHeap (make (sLen opts) (sLen opts + 6)) ;;
  _ <- onHeap (copy optsLocal opts) ;;
  optsLocal <- onHeap (append optsLocal
    [ ServiceName service;
      ResourceName method;
      Tag tagMethod (VString method);
      SpanType Ext.AppTypeRPC;
      Measured;
      Tag Ext.Component (VString "google.golang.org/grpc.v12");
      Tag Ext.SpanKind (VString Ext.SpanKindServer) ]) ;;
  let '(md, _) := FromContext ctx in                       (* nil is ok *)
  optsLocal <- match Extract md with
               | inl sctx => onHeap (append optsLocal [ChildOf sctx])
               | inr _ => ret optsLocal
               end ;;
  StartSpanFromContext ctx "grpc.server" optsLocal.

(** grpc.go, lines 29-39: the configuration of the server interceptor.
    [globalServiceName] is what [globalconfig.ServiceName()] returns. *)
Definition serverConfig (globalServiceName : string)
    (opts : list InterceptorOption) : interceptorConfig :=
  let cfg := mkConfig "" nilSlice in
  let cfg := defaults cfg in
  let cfg := foldl (λ cfg fn, fn cfg) cfg opts in
  if decide (serviceName cfg = "") then
    let cfg := mkConfig "grpc.server" (spanOpts cfg) in
    if decide (globalServiceName ≠ "")
    then mkConfig globalServiceName (spanOpts cfg)
    else cfg
  else cfg.

(** grpc.go, lines 28-48 ([log.Debug] changes nothing of the state) *)
Definition UnaryServerInterceptor (globalServiceName : string)
    (opts : list InterceptorOption)
    : Context → Value → UnaryServerInfo → UnaryHandler → M (Value * error) :=
  let cfg := serverConfig globalServiceName opts in
  λ ctx req info handler,
    let* (span, ctx) :=
      startSpanFromContext ctx (FullMethod info) (serviceName cfg) (spanOpts cfg) in
    let* (resp, err) := handler ctx req in
    onTracer (Finish span [WithError err]) ;;;
    ret (resp, err).

(** grpc.go, lines 73-80: the configuration of the client interceptor. *)
Definition clientConfig (opts : list InterceptorOption) : interceptorConfig :=
  let cfg := mkConfig "" nilSlice in
  let cfg := defaults cfg in
  let cfg := foldl (λ cfg fn, fn cfg) cfg opts in
  if decide (serviceName cfg = "")
  then mkConfig "grpc.client" (spanOpts cfg)
  else cfg.

(** grpc.go, lines 103-112: the tags taken from the peer. *)
Definition tagPeer (span : Span) (p : Peer) : M unit :=
  match Addr p with
  | Some addr =>
      match Net.SplitHostPort addr with
      | Some (host, port) =>
          (if decide (host ≠ "")
           then onTracer (SetTag span Ext.TargetHost (VString host))
           else ret tt) ;;;
          onTracer (SetTag span Ext.TargetPort (VString port))
      | None => ret tt
      end
  | None => ret tt
  end.

(** grpc.go, lines 72-117 *)
Definition UnaryClientInterceptor (opts : list InterceptorOption)
    : Context → string → Value → Value → ClientConn → UnaryInvoker →
      list CallOption → M error :=
  let cfg := clientConfig opts in
  λ ctx method req reply cc invoker opts,
    let spanopts := spanOpts cfg in
    spanopts <- onHeap (append spanopts
      [ Tag tagMethod (VString method);
        SpanType Ext.AppTypeRPC;
        Tag Ext.Component (VString "google.golang.org/grpc.v12");
        Tag Ext.SpanKind (VString Ext.SpanKindClient) ]) ;;
    let* (span, ctx) := StartSpanFromContext ctx "grpc.client" spanopts in
    let '(md, ok) := FromContext ctx in
    let md := if ok then md else ∅ in
    let '(md, _) := Inject (SpanCtx span) md in
    let ctx := NewContext ctx md in
    let opts := opts ++ [PeerOption] in
    let* (err, p) := invoker ctx method req reply cc opts in
    tagPeer span p ;;;
    onTracer (SetTag span tagCode (VString (Code_String (CodeOf err)))) ;;;
    onTracer (Finish span [WithError err]) ;;;
    ret err.

End interceptors.
End GrpcV12.

(* ===================================================================== *)
(** ** contrib/database/sql *)
(* ===================================================================== *)

(** Modelled from the spec: [Register] and [tracedConnector.Connect] of
    package [sql] (only its test file is under src/).  Section 3: a
    registered driver entry "maps a driver name (string, unique) to a
    wrapped driver instance and its static configuration (service name,
    analytics rate, DSN flag)"; section 4.1: [Register] is "idempotent per
    name: second call with the same name is a no-op", and every operation
    is "wrapped with span creation/finish"; the test expects the service
    name [<driver>.db] by default, the operation name [<driver>.query] and
    the tag ["sql.query_type"]. *)
Module Sql.
Import Go Grpc Tracer Run.
Local Open Scope go_scope.

Record config : Type := mkConfig {
  serviceName : string;
  analyticsRate : option Q;         (* [None]: not set *)
  dsn : string
}.

Definition RegisterOption : Type := config → config.

Definition WithServiceName (name : string) : RegisterOption :=
  λ cfg, mkConfig name (analyticsRate cfg) (dsn cfg).
Definition WithAnalyticsRate (rate : Q) : RegisterOption :=
  λ cfg, mkConfig (serviceName cfg) (Some rate) (dsn cfg).
Definition WithDSN (name : string) : RegisterOption :=
  λ cfg, mkConfig (serviceName cfg) (analyticsRate cfg) name.

Definition queryTypeKey : string := "sql.query_type".
Definition queryTypeConnect : string := "Connect".

Section sql.
(** [driver.Driver] and [driver.Conn] *)
Context {Driver Conn : Type}.

(** The configuration a registration stores. *)
Definition registerConfig (driverName : string)
    (opts : list RegisterOption) : config :=
  let cfg := foldl (λ cfg fn, fn cfg) (mkConfig "" None "") opts in
  if decide (serviceName cfg = "")
  then mkConfig (driverName +:+ ".db") (analyticsRate cfg) (dsn cfg)
  else cfg.

(** [Register(driverName, driver, opts...)] on the table of registered
    drivers. *)
Definition Register (driverName : string) (driver : Driver)
    (opts : list RegisterOption)
    (registered : gmap string (Driver * config)) : gmap string (Driver * config) :=
  match registered !! driverName with
  | Some _ => registered          (* already registered: nothing changes *)
  | None => <[driverName := (driver, registerConfig driverName opts)]> registered
  end.

(** [driver.Connector.Connect] of the wrapped connector. *)
Definition Connector : Type := Context → M (option Conn * error).

Record tracedConnector : Type := mkTracedConnector {
  connector : Connector;
  driverName : string;
  cfg : config
}.

(** [tracedConnector.Connect(ctx)]: one span around the connect call of
    the wrapped connector, finished with its error. *)
Definition Connect (t : tracedConnector) (ctx : Context)
    : M (option Conn * error) :=
  opts <- onHeap (variadic
    [ ServiceName (serviceName (cfg t));
      SpanType Ext.SpanTypeSQL;
      Tag queryTypeKey (VString queryTypeConnect) ]) ;;
  let* (span, ctx) := StartSpanFromContext ctx (driverName t +:+ ".query") opts in
  let* (conn, err) := connector t ctx in
  onTracer (Finish span [WithError err]) ;;;
  ret (conn, err).

End sql.
End Sql.

(* ===================================================================== *)
(** ** Vocabulary of the statements *)
(* ===================================================================== *)

Import Go Grpc Tracer Run.

(** The non-nil options among the cells of a slice. *)
Definition somes {T} (cells : list (option T)) : list T := omap id cells.

Module Observe.

(** The calls the tracer has received so far. *)
Definition calls (w : World) : list Call := mtCalls (wTracer w).

(** The span object behind a span reference, and its tags. *)
Definition spanIn (w : World) (s : Span) : MockSpan := spanOf (wTracer w) s.
Definition tagsOf (w : World) (s : Span) : gmap string TagValue :=
  msTags (spanIn w s).

(** What finishing with [err] does to the tags: the error becomes the
    error tag; with no error the tags stay as they are. *)
Definition attachError (err : error) (tags : gmap string TagValue)
    : gmap string TagValue :=
  match err with
  | Some e => <[Ext.Error := VError e]> tags
  | None => tags
  end.

(** The parent option [tracer.StartSpanFromContext] adds for the active
    span of the context. *)
Definition ctxParent (ctx : Context) : list StartSpanOption :=
  match SpanFromContext ctx with
  | Some s => [ChildOf (SpanCtx s)]
  | None => []
  end.

(** The parent option [startSpanFromContext] adds for the trace context of
    the inbound metadata. *)
Definition extracted (ctx : Context) : list StartSpanOption :=
  match Extract (FromContext ctx).1 with
  | inl sctx => [ChildOf sctx]
  | inr _ => []
  end.

Definition applyOpts (opts : list StartSpanOption) : StartSpanConfig :=
  foldl (λ cfg fn, fn cfg) (mkStartCfg None ∅) opts.

(** The options the three adapters add themselves. *)
Definition serverOpts (method service : string) : list StartSpanOption :=
  [ ServiceName service; ResourceName method;
    Tag GrpcV12.tagMethod (VString method); SpanType Ext.AppTypeRPC;
    Measured;
    Tag Ext.Component (VString "google.golang.org/grpc.v12");
    Tag Ext.SpanKind (VString Ext.SpanKindServer) ].
Definition clientOpts (method : string) : list StartSpanOption :=
  [ Tag GrpcV12.tagMethod (VString method); SpanType Ext.AppTypeRPC;
    Tag Ext.Component (VString "google.golang.org/grpc.v12");
    Tag Ext.SpanKind (VString Ext.SpanKindClient) ].
Definition sqlOpts (service : string) : list StartSpanOption :=
  [ ServiceName service; SpanType Ext.SpanTypeSQL;
    Tag Sql.queryTypeKey (VString Sql.queryTypeConnect) ].

(** The parent identifier of a span started with configuration [cfg]. *)
Definition parentID (cfg : StartSpanConfig) : N :=
  match Parent cfg with Some p => Npos (SpanID p) | None => 0%N end.

(** The state after [span.Finish(tracer.WithError(err))], and after
    [span.SetTag(k, v)]. *)
Definition finished (span : Span) (err : error) (w : World) : World :=
  mkWorld (wHeap w) (Finish span [WithError err] (wTracer w)).
Definition tagged (span : Span) (k : string) (v : TagValue) (w : World) : World :=
  mkWorld (wHeap w) (SetTag span k v (wTracer w)).

(** Calls that only set tags of [span]. *)
Definition onlySetTags (span : Span) (cs : list Call) : Prop :=
  Forall (λ c, ∃ k v, c = CallSetTag span k v) cs.

(** The metadata the client interceptor sends: the trace context of its
    span written into the metadata of the caller's context. *)
Definition outgoingMD (ctx : Context) (span : Span) : MD :=
  (Inject (SpanCtx span) (default ∅ (ctxMD ctx))).1.

(** How a traced call shows in the calls the tracer receives: [w0] is the
    state before the adapter runs, [w1] and [w2] the states before and
    after the wrapped call, [w3] the state the adapter leaves. *)
Definition tracedOnce (name : string) (span : Span) (err : error)
    (w0 w1 w2 w3 : World) : Prop :=
  (* one span is started, before the wrapped call *)
  calls w1 = calls w0 ++ [CallStartSpan name span] ∧
  (* after it the adapter sets tags of that span and finishes it, once *)
  (∃ tc, onlySetTags span tc ∧
         calls w3 = calls w2 ++ tc ++ [CallFinish span err]) ∧
  msFinished (spanIn w3 span) = true ∧
  (* the error becomes the error tag, and nothing does when there is none *)
  tagsOf w3 span !! Ext.Error = attachError err (tagsOf w2 span) !! Ext.Error.

(** What the peer a call resolved to adds to the tags of the span: the
    port, and the host when the address has one. *)
Definition peerTagged (p : Peer) (before after : gmap string TagValue) : Prop :=
  match Addr p ≫= Net.SplitHostPort with
  | Some (host, port) =>
      after !! Ext.TargetPort = Some (VString port) ∧
      after !! Ext.TargetHost =
        if decide (host ≠ "") then Some (VString host)
        else before !! Ext.TargetHost
  | None =>
      after !! Ext.TargetPort = before !! Ext.TargetPort ∧
      after !! Ext.TargetHost = before !! Ext.TargetHost
  end.

(** One call through the client interceptor, step by step. *)
Definition clientCall {Value ClientConn : Type}
    (opts : list GrpcV12.InterceptorOption) (ctx : Context)
    (method : string) (req reply : Value) (cc : ClientConn)
    (invoker : GrpcV12.UnaryInvoker) (callopts : list CallOption)
    (w0 : World) : Prop :=
  ∃ span w1 err p w2 w3,
    (* a client span is started *)
    calls w1 = calls w0 ++ [CallStartSpan "grpc.client" span] ∧
    msName (spanIn w1 span) = "grpc.client" ∧
    tagsOf w1 span !! Ext.SpanKind = Some (VString "client") ∧
    tagsOf w1 span !! GrpcV12.tagMethod = Some (VString method) ∧
    tagsOf w1 span !! Ext.Component
      = Some (VString "google.golang.org/grpc.v12") ∧
    (* its trace context is injected into the outbound metadata, and the
       real call is invoked with them *)
    Extract (outgoingMD ctx span) = inl (SpanCtx span) ∧
    invoker (NewContext (ContextWithSpan ctx span) (outgoingMD ctx span))
            method req reply cc (callopts ++ [PeerOption]) w1
      = ((err, p), w2) ∧
    (* the peer and the status code are tagged, the span is finished with
       the error of the call, which is returned *)
    GrpcV12.UnaryClientInterceptor opts ctx method req reply cc invoker
      callopts w0 = (err, w3) ∧
    peerTagged p (tagsOf w2 span) (tagsOf w3 span) ∧
    tagsOf w3 span !! GrpcV12.tagCode
      = Some (VString (Code_String (CodeOf err))) ∧
    tracedOnce "grpc.client" span err w0 w1 w2 w3.

(** The service name the options given at construction leave in the
    configuration (the empty string when none sets it); a later option
    overrides an earlier one. *)
Definition configured (opts : list GrpcV12.InterceptorOption) : string :=
  GrpcV12.serviceName
    (foldl (λ cfg fn, fn cfg) (GrpcV12.mkConfig "" nilSlice) opts).

(** A sequence of [Register] calls, in order. *)
Definition RegisterAll {Driver : Type}
    (rs : list (string * Driver * list Sql.RegisterOption))
    (registered : gmap string (Driver * Sql.config))
    : gmap string (Driver * Sql.config) :=
  foldl (λ reg r, Sql.Register r.1.1 r.1.2 r.2 reg) registered rs.

(** The client interceptor calling, in the same process, a server behind
    the server interceptor: the transport hands the metadata of the call to
    the server in a new context. *)
Definition loopback (handler : GrpcV12.UnaryHandler (Value:=nat))
    : GrpcV12.UnaryInvoker (Value:=nat) (ClientConn:=unit) :=
  λ ctx method req reply cc opts w,
    let '((resp, err), w') :=
      GrpcV12.UnaryServerInterceptor "" [] (mkContext None (ctxMD ctx)) req
        (mkInfo method) handler w in
    ((err, mkPeer (Some "127.0.0.1:50051")), w').

(** A handler that answers with its request, and invokers that answer
    from a given peer. *)
Definition ping : GrpcV12.UnaryHandler (Value:=nat) :=
  λ ctx req w, ((req, None), w).
Definition answering (err : error) (addr : option string)
    : GrpcV12.UnaryInvoker (Value:=nat) (ClientConn:=unit) :=
  λ ctx method req reply cc opts w, ((err, mkPeer addr), w).

End Observe.
Import Observe.

(* ===================================================================== *)
(** ** Vocabulary of the further properties *)
(* ===================================================================== *)

(** The byte [c] does not occur in [s]. *)
Definition without (c : ascii) (s : string) : Prop := Net.indexByte c s = None.

(** The keys of the tags the server and the client interceptor set
    themselves when they start a span (grpc.go, lines 56-62 and 89-92). *)
Definition serverTagKeys : list string :=
  [ Ext.ServiceName; Ext.ResourceName; GrpcV12.tagMethod; Ext.SpanType;
    Ext.keyMeasured; Ext.Component; Ext.SpanKind ].
Definition clientTagKeys : list string :=
  [ GrpcV12.tagMethod; Ext.SpanType; Ext.Component; Ext.SpanKind ].

(** One call through the server interceptor: [span] is the span it
    starts, [w1] and [w2] are the states in which the handler is entered
    and left, [w3] is the state the interceptor leaves. *)
Definition serverRun {Value : Type} (G : string)
    (opts : list GrpcV12.InterceptorOption) (ctx : Context) (req : Value)
    (info : UnaryServerInfo) (handler : GrpcV12.UnaryHandler) (w0 : World)
    (span : Span) (w1 : World) (resp : Value) (err : error) (w2 w3 : World) : Prop :=
  calls w1 = calls w0 ++ [CallStartSpan "grpc.server" span] ∧
  handler (ContextWithSpan ctx span) req w1 = ((resp, err), w2) ∧
  GrpcV12.UnaryServerInterceptor G opts ctx req info handler w0 = ((resp, err), w3).

(** One call through the client interceptor, likewise around the
    invocation; [p] is the peer the invocation resolved. *)
Definition clientRun {Value ClientConn : Type}
    (opts : list GrpcV12.InterceptorOption) (ctx : Context)
    (method : string) (req reply : Value) (cc : ClientConn)
    (invoker : GrpcV12.UnaryInvoker) (callopts : list CallOption) (w0 : World)
    (span : Span) (w1 : World) (err : error) (p : Peer) (w2 w3 : World) : Prop :=
  calls w1 = calls w0 ++ [CallStartSpan "grpc.client" span] ∧
  invoker (NewContext (ContextWithSpan ctx span) (outgoingMD ctx span))
          method req reply cc (callopts ++ [PeerOption]) w1 = ((err, p), w2) ∧
  GrpcV12.UnaryClientInterceptor opts ctx method req reply cc invoker callopts w0
    = (err, w3).

(** The calls that tag a span with the peer of a call whose address splits
    into [host] and [port] (grpc.go, lines 107-110). *)
Definition peerCalls (span : Span) (host port : string) : list Call :=
  (if decide (host ≠ "")
   then [CallSetTag span Ext.TargetHost (VString host)] else [])
  ++ [CallSetTag span Ext.TargetPort (VString port)].

(** The last two calls of the client interceptor: the status code, then
    the finish (grpc.go, lines 113-114). *)
Definition closingCalls (span : Span) (err : error) : list Call :=
  [ CallSetTag span GrpcV12.tagCode (VString (Code_String (CodeOf err)));
    CallFinish span err ].

(** A handler that makes one call through the client interceptor, with
    the context it was given, and answers with the reply of that call. *)
Definition callingThrough {Value ClientConn : Type}
    (opts : list GrpcV12.InterceptorOption) (method : string) (reply : Value)
    (cc : ClientConn) (invoker : GrpcV12.UnaryInvoker)
    (callopts : list CallOption) : GrpcV12.UnaryHandler :=
  λ ctx req w,
    let '(err, w') :=
      GrpcV12.UnaryClientInterceptor opts ctx method req reply cc invoker callopts w in
    ((reply, err), w').

Ltac tag_lookup :=
  repeat first
    [ rewrite lookup_insert_eq
    | rewrite lookup_insert_ne
        by (unfold Ext.ServiceName, Ext.ResourceName, Ext.SpanType,
              Ext.Error, Ext.Component, Ext.SpanKind, Ext.TargetHost,
              Ext.TargetPort, Ext.keyMeasured, GrpcV12.tagMethod,
              GrpcV12.tagCode, Sql.queryTypeKey;
            discriminate) ].

(* ===================================================================== *)
(** ** Slices, the tracer and the adapters: auxiliary facts *)
(* ===================================================================== *)

Section slice_facts.
Context {T : Type}.
Implicit Types (h : gmap positive (list (option T))) (s : Slice) (xs : list T).
Local Arguments backing : simpl never.
Local Arguments elems : simpl never.

Lemma list_inserts_split (a ys : list (option T)) i :
  i + length ys ≤ length a →
  list_inserts i ys a = take i a ++ ys ++ drop (i + length ys) a.
Proof.
  revert i. induction a as [|x a IH]; intros i Hi.
  - simpl in Hi. assert (i = 0) by lia. assert (ys = []) by (destruct ys; [done | simpl in Hi; lia]).
    subst. done.
  - destruct i as [|i].
    + simpl. rewrite <- (take_drop (length ys) (x :: a)) at 1.
      apply list_inserts_0_r. rewrite length_take. simpl in *. lia.
    + rewrite list_inserts_cons. simpl. f_equal. apply IH. simpl in Hi. lia.
Qed.

Lemma somes_app (xs ys : list (option T)) : somes (xs ++ ys) = somes xs ++ somes ys.
Proof. apply omap_app. Qed.

Lemma somes_replicate n : somes (replicate n (@None T)) = [].
Proof. induction n; simpl; auto. Qed.

Lemma somes_Some xs : somes (Some <$> xs) = xs.
Proof. induction xs; simpl; [done | by f_equal]. Qed.

Lemma somes_take_replicate n m : somes (take n (replicate m (@None T))) = [].
Proof. rewrite take_replicate. apply somes_replicate. Qed.

Lemma fresh_None h : h !! fresh (dom h) = None.
Proof. apply not_elem_of_dom, is_fresh. Qed.

Lemma length_elems h s : valid h s → length (elems h s) = sLen s.
Proof.
  intros [H1 H2]. unfold elems. rewrite length_take, length_drop. lia.
Qed.

Lemma backing_insert h l a l' :
  backing (<[l := a]> h) l' = if decide (l = l') then a else backing h l'.
Proof.
  unfold backing. rewrite lookup_insert. by repeat case_decide.
Qed.

Lemma backing_alter h l f l' :
  f [] = [] →
  backing (alter f l h) l' = if decide (l = l') then f (backing h l') else backing h l'.
Proof.
  intros Hf. unfold backing. rewrite lookup_alter. case_decide; [|done].
  subst. by destruct (h !! l').
Qed.

(** Writes to an array that did not exist in [h0] leave [h0] included. *)
Lemma subseteq_alter h0 h l f :
  h0 ⊆ h → h0 !! l = None → h0 ⊆ alter f l h.
Proof.
  intros Hsub Hl. apply map_subseteq_spec. intros i x Hi.
  rewrite lookup_alter_ne by congruence.
  by eapply lookup_weaken.
Qed.

Lemma subseteq_fresh h0 h a :
  h0 ⊆ h → h0 ⊆ <[fresh (dom h) := a]> h.
Proof.
  intros Hsub. etrans; [exact Hsub|]. apply insert_subseteq, fresh_None.
Qed.

Lemma fresh_outside h0 h : h0 ⊆ h → h0 !! fresh (dom h) = None.
Proof.
  intros Hsub. destruct (h0 !! fresh (dom h)) eqn:E; [|done].
  eapply lookup_weaken in E; [|exact Hsub]. by rewrite fresh_None in E.
Qed.

(** [make] then [copy]: a private copy of the caller's cells. *)
Lemma clone_spec h0 h src k :
  h0 ⊆ h →
  let '(dst, h1) := make (sLen src) (sLen src + k) h in
  let h2 := (copy dst src h1).2 in
  h0 ⊆ h2 ∧ h0 !! sArr dst = None ∧ valid h2 dst ∧
  sLen dst = sLen src ∧ sCap dst = sLen src + k ∧
  somes (elems h2 dst) = somes (elems h src).
Proof.
  intros Hsub. unfold make, copy. simpl.
  set (l := fresh (dom h)). set (n := sLen src).
  rewrite Nat.min_id.
  assert (Hl : h !! l = None) by apply fresh_None.
  set (h1 := <[l := replicate (n + k) None]> h).
  set (xs := take n (elems h1 src)).
  assert (Hxs : length xs ≤ n) by (unfold xs; rewrite length_take; lia).
  assert (Harr : backing (alter (list_inserts 0 xs) l h1) l
                 = xs ++ replicate (n + k - length xs) None).
  { rewrite backing_alter by apply list_inserts_nil.
    rewrite decide_True by done. unfold h1. rewrite backing_insert.
    rewrite decide_True by done.
    replace (replicate (n + k) (@None T))
      with (replicate (length xs) (@None T) ++ replicate (n + k - length xs) None).
    2:{ rewrite <- replicate_add. f_equal. lia. }
    apply list_inserts_0_r. by rewrite length_replicate. }
  split_and!.
  - apply subseteq_alter; [|by apply fresh_outside].
    by apply subseteq_fresh.
  - by apply fresh_outside.
  - split; cbn [sArr sOff sLen sCap]; [lia|]. rewrite Harr, length_app, length_replicate. lia.
  - done.
  - done.
  - unfold elems at 1. cbn [sArr sOff sLen sCap]. rewrite Harr, drop_0.
    rewrite take_app, somes_app, somes_take_replicate, app_nil_r.
    rewrite take_ge by lia.
    unfold xs, elems. fold n. rewrite take_take, Nat.min_id.
    unfold h1. rewrite backing_insert. case_decide as E; [|done].
    unfold backing. rewrite <- E, Hl. simpl.
    rewrite drop_replicate, somes_take_replicate. by rewrite drop_nil, take_nil.
Qed.

(** [append] on a valid slice. *)
Lemma append_spec h0 h s xs :
  h0 ⊆ h → valid h s →
  let '(s', h') := append s xs h in
  valid h' s' ∧ elems h' s' = elems h s ++ (Some <$> xs) ∧
  (h0 !! sArr s = None → h0 ⊆ h' ∧ h0 !! sArr s' = None).
Proof.
  intros Hsub Hv. unfold append. case_decide as Hcap.
  - pose proof Hv as [Hv1 Hv2].
    assert (Harr : backing (alter (list_inserts (sOff s + sLen s) (Some <$> xs)) (sArr s) h)
                     (sArr s)
                   = take (sOff s + sLen s) (backing h (sArr s)) ++ (Some <$> xs) ++
                     drop (sOff s + sLen s + length xs) (backing h (sArr s))).
    { rewrite backing_alter by apply list_inserts_nil.
      rewrite decide_True by done.
      rewrite list_inserts_split; rewrite length_fmap; [done | lia]. }
    split_and!.
    + split; cbn [sArr sOff sLen sCap]; [lia|]. rewrite Harr.
      rewrite !length_app, length_take, length_fmap, length_drop. lia.
    + unfold elems at 1. cbn [sArr sOff sLen sCap]. rewrite Harr.
      rewrite drop_app_le by (rewrite length_take; lia).
      rewrite take_app.
      rewrite length_drop, length_take.
      replace (drop (sOff s) (take (sOff s + sLen s) (backing h (sArr s))))
        with (elems h s).
      2:{ unfold elems. by rewrite take_drop_commute. }
      rewrite take_ge by (rewrite length_elems by done; lia).
      f_equal.
      replace (sLen s + length xs - _) with (length (Some <$> xs))
        by (rewrite length_fmap; lia).
      rewrite take_app_length. done.
    + intros Hp. cbn [sArr]. split; [|done]. by apply subseteq_alter.
  - simpl. set (l := fresh (dom h)).
    set (n := sLen s + length xs).
    assert (Hn : n ≤ growCap (sCap s) n) by (unfold growCap; lia).
    assert (Hlen : length (elems h s ++ (Some <$> xs)) = n).
    { rewrite length_app, length_elems, length_fmap by done. done. }
    assert (Harr : backing (<[l:=(elems h s ++ (Some <$> xs)) ++
                        replicate (growCap (sCap s) n - n) None]> h) l
                   = (elems h s ++ (Some <$> xs)) ++ replicate (growCap (sCap s) n - n) None).
    { rewrite backing_insert. by rewrite decide_True. }
    split_and!.
    + split; cbn [sArr sOff sLen sCap]; [done|]. rewrite Harr, length_app, Hlen, length_replicate. lia.
    + unfold elems at 1. cbn [sArr sOff sLen sCap]. rewrite Harr, drop_0.
      rewrite take_app, Hlen, Nat.sub_diag, take_0, app_nil_r.
      apply take_ge. lia.
    + intros _. split; [by apply subseteq_fresh | by apply fresh_outside].
Qed.

Lemma variadic_spec h0 h xs :
  h0 ⊆ h →
  let '(s, h') := variadic xs h in
  h0 ⊆ h' ∧ elems h' s = Some <$> xs.
Proof.
  intros Hsub. unfold variadic. split; [by apply subseteq_fresh|].
  unfold elems. cbn [sArr sOff sLen sCap]. rewrite backing_insert. rewrite decide_True by done.
  rewrite drop_0, take_ge; [done | by rewrite length_fmap].
Qed.
End slice_facts.

Section tracer_facts.
Implicit Types (t : MockTracer) (w : World) (s span : Span).

Lemma applyStart_somes cells : applyStart cells = applyOpts (somes cells).
Proof.
  unfold applyStart, applyOpts. generalize (mkStartCfg None ∅).
  induction cells as [|[f|] cells IH]; intros c; simpl; auto.
Qed.

Lemma applyOpts_app xs ys :
  applyOpts (xs ++ ys) = foldl (λ cfg fn, fn cfg) (applyOpts xs) ys.
Proof. unfold applyOpts. apply foldl_app. Qed.

Lemma StartSpan_spec name cells t :
  let '(s, t') := StartSpan name cells t in
  let cfg := applyOpts (somes cells) in
  mtCalls t' = mtCalls t ++ [CallStartSpan name s] ∧
  spanOf t' s = mkMockSpan name (SpanCtx s) (parentID cfg) (Tags cfg) false ∧
  SpanID (SpanCtx s) = mtNextID t ∧
  TraceID (SpanCtx s) = match Parent cfg with Some p => TraceID p | None => mtNextID t end.
Proof.
  unfold StartSpan. rewrite applyStart_somes. cbn -[applyOpts].
  split_and!; try done.
  unfold spanOf. cbn -[applyOpts]. by rewrite lookup_insert_eq.
Qed.

Lemma spanOf_SetTag s k v t :
  spanOf (SetTag s k v t) s = addTag k v (spanOf t s).
Proof. unfold SetTag, spanOf at 1. simpl. by rewrite lookup_insert_eq. Qed.

Lemma spanOf_Finish s err t :
  spanOf (Finish s [WithError err] t) s =
  markFinished (match err with
                | Some e => addTag Ext.Error (VError e) (spanOf t s)
                | None => spanOf t s end).
Proof. unfold Finish, spanOf at 1. simpl. by rewrite lookup_insert_eq. Qed.

Lemma tagsOf_finished span err w :
  tagsOf (finished span err w) span = attachError err (tagsOf w span).
Proof.
  unfold tagsOf, spanIn, finished. simpl. rewrite spanOf_Finish.
  by destruct err.
Qed.

Lemma calls_finished span err w :
  calls (finished span err w) = calls w ++ [CallFinish span err].
Proof. done. Qed.

Lemma msFinished_finished span err w :
  msFinished (spanIn (finished span err w) span) = true.
Proof. unfold spanIn, finished. simpl. by rewrite spanOf_Finish. Qed.
End tracer_facts.

Section adapter_facts.
Context {Value ClientConn : Type}.
Import GrpcV12.

Lemma startSpanFromContext_run ctx method service opts w :
  ∃ optsLocal h',
    startSpanFromContext ctx method service opts w
      = StartSpanFromContext ctx "grpc.server" optsLocal (mkWorld h' (wTracer w)) ∧
    wHeap w ⊆ h' ∧
    wHeap w !! sArr optsLocal = None ∧
    somes (elems h' optsLocal)
      = somes (elems (wHeap w) opts) ++ serverOpts method service ++ extracted ctx.
Proof.
  unfold startSpanFromContext, bind, onHeap. destruct w as [h t].
  fold (serverOpts method service). cbn [wHeap wTracer].
  pose proof (clone_spec h h opts 6 (reflexivity _)) as Hclone.
  destruct (make (sLen opts) (sLen opts + 6) h) as [s0 h1]. cbn [wHeap wTracer].
  destruct (copy s0 opts h1) as [n h2]. cbn [snd wHeap wTracer] in *.
  destruct Hclone as (Hs2 & Hp0 & Hv0 & _ & _ & He0).
  pose proof (append_spec h h2 s0 (serverOpts method service) Hs2 Hv0) as Happ.
  destruct (append s0 (serverOpts method service) h2) as [s1 h3].
  cbn [wHeap wTracer].
  destruct Happ as (Hv1 & He1 & Hf1). destruct (Hf1 Hp0) as [Hs3 Hp1].
  unfold extracted. destruct (FromContext ctx) as [md ok]. cbn [fst].
  destruct (Extract md) as [sctx|e]; cbn [wHeap wTracer].
  - pose proof (append_spec h h3 s1 [ChildOf sctx] Hs3 Hv1) as Happ2.
    destruct (append s1 [ChildOf sctx] h3) as [s2 h4]. cbn [wHeap wTracer].
    destruct Happ2 as (Hv2 & He2 & Hf2). destruct (Hf2 Hp1) as [Hs4 Hp2].
    exists s2, h4. split_and!; [done | done | done |].
    rewrite He2, He1, !somes_app, !somes_Some, He0. by rewrite <- app_assoc.
  - exists s1, h3. split_and!; [done | done | done |].
    rewrite He1, !somes_app, !somes_Some, He0. done.
Qed.

Lemma server_run G opts ctx req info (handler : UnaryHandler (Value:=Value)) w0 :
  let cfg := serverConfig G opts in
  ∃ cells h1,
    let '(span, t1) := StartSpan "grpc.server" cells (wTracer w0) in
    wHeap w0 ⊆ h1 ∧
    somes cells = somes (elems (wHeap w0) (spanOpts cfg)) ++
                  serverOpts (FullMethod info) (serviceName cfg) ++
                  extracted ctx ++ ctxParent ctx ∧
    UnaryServerInterceptor G opts ctx req info handler w0 =
      let '((resp, err), w2) :=
        handler (ContextWithSpan ctx span) req (mkWorld h1 t1) in
      ((resp, err), finished span err w2).
Proof.
  intros cfg. unfold UnaryServerInterceptor. fold cfg.
  destruct (startSpanFromContext_run ctx (FullMethod info) (serviceName cfg)
              (spanOpts cfg) w0) as (optsLocal & h1 & Heq & Hsub & _ & Hcells).
  exists (elems h1 optsLocal ++ (Some <$> ctxParent ctx)), h1.
  unfold bind at 1. rewrite Heq. unfold StartSpanFromContext. cbn [wHeap wTracer].
  replace (match SpanFromContext ctx with
           | Some s => [Some (ChildOf (SpanCtx s))]
           | None => []
           end) with (Some <$> ctxParent ctx)
    by (unfold ctxParent; by destruct (SpanFromContext ctx)).
  destruct (StartSpan "grpc.server" _ (wTracer w0)) as [span t1].
  split_and!; [done | |].
  - rewrite somes_app, somes_Some, Hcells. by rewrite <- !app_assoc.
  - unfold bind. destruct (handler _ req _) as [[resp err] w2]. done.
Qed.

Lemma tagPeer_spec span p w :
  let w' := (tagPeer span p w).2 in
  wHeap w' = wHeap w ∧
  (∃ tc, calls w' = calls w ++ tc ∧ onlySetTags span tc) ∧
  msFinished (spanIn w' span) = msFinished (spanIn w span) ∧
  tagsOf w' span =
    match Addr p with
    | Some addr =>
        match Net.SplitHostPort addr with
        | Some (host, port) =>
            <[Ext.TargetPort := VString port]>
              (if decide (host ≠ "")
               then <[Ext.TargetHost := VString host]> (tagsOf w span)
               else tagsOf w span)
        | None => tagsOf w span
        end
    | None => tagsOf w span
    end.
Proof.
  unfold tagPeer. destruct (Addr p) as [addr|]; cbn.
  2:{ split_and!; try done. exists []. split; [by rewrite app_nil_r | constructor]. }
  destruct (Net.SplitHostPort addr) as [[host port]|]; cbn.
  2:{ split_and!; try done. exists []. split; [by rewrite app_nil_r | constructor]. }
  unfold bind, onTracer, ret, calls, tagsOf, spanIn.
  case_decide; cbn [fst snd wHeap wTracer].
  - split_and!; [done | | |].
    + eexists [_; _]. split; [cbn; by rewrite <- app_assoc|].
      repeat constructor; eauto.
    + by rewrite !spanOf_SetTag.
    + by rewrite !spanOf_SetTag.
  - split_and!; [done | | |].
    + eexists [_]. split; [done|]. repeat constructor; eauto.
    + by rewrite !spanOf_SetTag.
    + by rewrite !spanOf_SetTag.
Qed.

Lemma client_run opts ctx method req reply cc
    (invoker : UnaryInvoker (Value:=Value) (ClientConn:=ClientConn)) callopts w0 :
  let cfg := clientConfig opts in
  ∃ cells h1,
    let '(span, t1) := StartSpan "grpc.client" cells (wTracer w0) in
    (valid (wHeap w0) (spanOpts cfg) →
     somes cells = somes (elems (wHeap w0) (spanOpts cfg)) ++
                   clientOpts method ++ ctxParent ctx) ∧
    UnaryClientInterceptor opts ctx method req reply cc invoker callopts w0 =
      let ctx1 := NewContext (ContextWithSpan ctx span) (outgoingMD ctx span) in
      let '((err, p), w2) :=
        invoker ctx1 method req reply cc (callopts ++ [PeerOption]) (mkWorld h1 t1) in
      (err, finished span err
              (tagged span tagCode (VString (Code_String (CodeOf err)))
                 (tagPeer span p w2).2)).
Proof.
  intros cfg. unfold UnaryClientInterceptor. fold cfg. fold (clientOpts method).
  unfold bind at 1, onHeap. destruct w0 as [h t]. cbn [wHeap wTracer].
  pose proof (append_spec h h (spanOpts cfg) (clientOpts method) (reflexivity _)) as Happ.
  destruct (append (spanOpts cfg) (clientOpts method) h) as [s1 h1].
  exists (elems h1 s1 ++ (Some <$> ctxParent ctx)), h1.
  unfold bind at 1, StartSpanFromContext. cbn [wHeap wTracer].
  replace (match SpanFromContext ctx with
           | Some s => [Some (ChildOf (SpanCtx s))]
           | None => []
           end) with (Some <$> ctxParent ctx)
    by (unfold ctxParent; by destruct (SpanFromContext ctx)).
  destruct (StartSpan "grpc.client" _ t) as [span t1].
  split.
  - intros Hv. destruct (Happ Hv) as (_ & He & _).
    rewrite somes_app, somes_Some, He, somes_app, somes_Some. by rewrite <- app_assoc.
  - unfold outgoingMD, FromContext, ContextWithSpan. cbn [ctxMD].
    destruct (ctxMD ctx) as [md|]; cbn [default];
      destruct (Inject (SpanCtx span) _) as [md' e] eqn:Hinj; cbn [fst];
      unfold bind at 1;
      destruct (invoker _ method req reply cc _ _) as [[err p] w2];
      unfold bind, onTracer, ret, finished, tagged;
      destruct (tagPeer span p w2) as [[] w3]; done.
Qed.
End adapter_facts.

Section sql_facts.
Context {Conn : Type}.
Import Sql.

Lemma Connect_run (t : tracedConnector (Conn:=Conn)) ctx w0 :
  ∃ cells h1,
    let '(span, t1) := StartSpan (driverName t +:+ ".query") cells (wTracer w0) in
    wHeap w0 ⊆ h1 ∧
    somes cells = sqlOpts (serviceName (cfg t)) ++ ctxParent ctx ∧
    Connect t ctx w0 =
      let '((conn, err), w2) :=
        connector t (ContextWithSpan ctx span) (mkWorld h1 t1) in
      ((conn, err), finished span err w2).
Proof.
  unfold Connect. fold (sqlOpts (serviceName (cfg t))).
  unfold bind at 1, onHeap. destruct w0 as [h t0]. cbn [wHeap wTracer].
  pose proof (variadic_spec h h (sqlOpts (serviceName (cfg t))) (reflexivity _)) as Hvar.
  destruct (variadic (sqlOpts (serviceName (cfg t))) h) as [s1 h1].
  destruct Hvar as [Hsub He].
  exists (elems h1 s1 ++ (Some <$> ctxParent ctx)), h1.
  unfold bind at 1, StartSpanFromContext. cbn [wHeap wTracer].
  replace (match SpanFromContext ctx with
           | Some s => [Some (ChildOf (SpanCtx s))]
           | None => []
           end) with (Some <$> ctxParent ctx)
    by (unfold ctxParent; by destruct (SpanFromContext ctx)).
  destruct (StartSpan _ _ t0) as [span t1].
  split_and!; [done | |].
  - by rewrite somes_app, He, !somes_Some.
  - unfold bind. destruct (connector t _ _) as [[conn err] w2]. done.
Qed.
End sql_facts.

Lemma tracedOnce_quiet name span err w0 w1 w2 w3 :
  tracedOnce name span err w0 w1 w2 w3 → calls w2 = calls w1 →
  ∃ tc, onlySetTags span tc ∧
        calls w3 = calls w0 ++ [CallStartSpan name span] ++ tc ++ [CallFinish span err].
Proof.
  intros (H1 & (tc & Htc & H3) & _) Hq. exists tc. split; [done|].
  by rewrite H3, Hq, H1, <- !app_assoc.
Qed.

Lemma StartSpan_calls name cells w0 h1 :
  let '(span, t1) := StartSpan name cells (wTracer w0) in
  calls (mkWorld h1 t1) = calls w0 ++ [CallStartSpan name span].
Proof. done. Qed.

Lemma tracedOnce_plain name cells w0 h1 err w2 :
  let '(span, t1) := StartSpan name cells (wTracer w0) in
  tracedOnce name span err w0 (mkWorld h1 t1) w2 (finished span err w2).
Proof.
  pose proof (StartSpan_calls name cells w0 h1) as Hc.
  destruct (StartSpan name cells (wTracer w0)) as [span t1].
  split_and!.
  - done.
  - exists []. split; [constructor | done].
  - apply msFinished_finished.
  - by rewrite tagsOf_finished.
Qed.

Section start_options.
Import GrpcV12.

Lemma Tags_childOfs cfg ctx :
  Tags (foldl (λ cfg fn, fn cfg) cfg (extracted ctx ++ ctxParent ctx)) = Tags cfg.
Proof.
  unfold extracted, ctxParent.
  destruct (Extract _), (SpanFromContext ctx); done.
Qed.

Lemma Parent_childOfs cfg ctx :
  Parent (foldl (λ cfg fn, fn cfg) cfg (extracted ctx ++ ctxParent ctx)) =
  match SpanFromContext ctx, Extract (FromContext ctx).1 with
  | Some s, _ => Some (SpanCtx s)
  | None, inl sctx => Some sctx
  | None, inr _ => Parent cfg
  end.
Proof.
  unfold extracted, ctxParent.
  destruct (Extract _), (SpanFromContext ctx); done.
Qed.

Lemma Parent_ctxParent cfg ctx :
  Parent (foldl (λ cfg fn, fn cfg) cfg (ctxParent ctx)) =
  match SpanFromContext ctx with
  | Some s => Some (SpanCtx s)
  | None => Parent cfg
  end.
Proof. unfold ctxParent. by destruct (SpanFromContext ctx). Qed.

Lemma Tags_ctxParent cfg ctx :
  Tags (foldl (λ cfg fn, fn cfg) cfg (ctxParent ctx)) = Tags cfg.
Proof. unfold ctxParent. by destruct (SpanFromContext ctx). Qed.

Lemma Parent_serverOpts cfg method service :
  Parent (foldl (λ cfg fn, fn cfg) cfg (serverOpts method service)) = Parent cfg.
Proof. done. Qed.

Lemma Parent_clientOpts cfg method :
  Parent (foldl (λ cfg fn, fn cfg) cfg (clientOpts method)) = Parent cfg.
Proof. done. Qed.

Lemma Tags_serverOpts cfg method service :
  let tags := Tags (foldl (λ cfg fn, fn cfg) cfg (serverOpts method service)) in
  tags !! Ext.ServiceName = Some (VString service) ∧
  tags !! Ext.ResourceName = Some (VString method) ∧
  tags !! tagMethod = Some (VString method) ∧
  tags !! Ext.SpanType = Some (VString Ext.AppTypeRPC) ∧
  tags !! Ext.Component = Some (VString "google.golang.org/grpc.v12") ∧
  tags !! Ext.SpanKind = Some (VString Ext.SpanKindServer).
Proof. cbn. split_and!; by tag_lookup. Qed.

Lemma Tags_clientOpts cfg method :
  let tags := Tags (foldl (λ cfg fn, fn cfg) cfg (clientOpts method)) in
  tags !! tagMethod = Some (VString method) ∧
  tags !! Ext.SpanType = Some (VString Ext.AppTypeRPC) ∧
  tags !! Ext.Component = Some (VString "google.golang.org/grpc.v12") ∧
  tags !! Ext.SpanKind = Some (VString Ext.SpanKindClient) ∧
  tags !! Ext.ServiceName = Tags cfg !! Ext.ServiceName.
Proof. cbn. split_and!; by tag_lookup. Qed.
End start_options.

Section propagation.
Lemma parseID_formatID id : parseID (formatID id) = Some (Npos id).
Proof.
  unfold parseID, formatID. rewrite NilEmpty.usu. cbn [fmap option_fmap option_map].
  f_equal. exact (DecimalN.Unsigned.of_to (Npos id)).
Qed.

Lemma MDCarrier_read_Set key val (md : MD) :
  MDCarrier_read key (MDCarrier_Set key val md) = Some val.
Proof.
  unfold MDCarrier_read, MDCarrier_Set. rewrite lookup_insert_eq. cbn [default].
  apply last_snoc.
Qed.

Lemma MDCarrier_read_Set_ne key key' val (md : MD) :
  key ≠ key' →
  MDCarrier_read key' (MDCarrier_Set key val md) = MDCarrier_read key' md.
Proof.
  intros Hne. unfold MDCarrier_read, MDCarrier_Set. by rewrite lookup_insert_ne.
Qed.

(** Extract after Inject gives the injected context back, whatever the
    carrier held before. *)
Lemma Extract_Inject sc (md : MD) : Extract (Inject sc md).1 = inl sc.
Proof.
  unfold Extract, Inject, readID. cbn [fst].
  rewrite MDCarrier_read_Set_ne by done.
  rewrite !MDCarrier_read_Set, !parseID_formatID. by destruct sc.
Qed.
End propagation.

Section client_facts.
Import GrpcV12.
Context {Value ClientConn : Type}.

Lemma tagsOf_tagged span k v w :
  tagsOf (tagged span k v w) span = <[k := v]> (tagsOf w span).
Proof. unfold tagsOf, spanIn, tagged. cbn [wTracer]. by rewrite spanOf_SetTag. Qed.

Lemma lookup_attachError_ne err (tags : gmap string TagValue) k :
  k ≠ Ext.Error → attachError err tags !! k = tags !! k.
Proof. intros Hk. destruct err; [|done]. cbn. by rewrite lookup_insert_ne. Qed.

Lemma lookup_attachError err (tags tags' : gmap string TagValue) :
  tags !! Ext.Error = tags' !! Ext.Error →
  attachError err tags !! Ext.Error = attachError err tags' !! Ext.Error.
Proof. intros H. destruct err; [|done]. cbn. by rewrite !lookup_insert_eq. Qed.

Lemma client_after span err p w2 :
  let w3 := finished span err
              (tagged span tagCode (VString (Code_String (CodeOf err)))
                 (tagPeer span p w2).2) in
  peerTagged p (tagsOf w2 span) (tagsOf w3 span) ∧
  tagsOf w3 span !! tagCode = Some (VString (Code_String (CodeOf err))) ∧
  (∃ tc, onlySetTags span tc ∧ calls w3 = calls w2 ++ tc ++ [CallFinish span err]) ∧
  msFinished (spanIn w3 span) = true ∧
  tagsOf w3 span !! Ext.Error = attachError err (tagsOf w2 span) !! Ext.Error ∧
  wHeap w3 = wHeap w2.
Proof.
  intros w3.
  destruct (tagPeer_spec span p w2) as (Hheap & (tc & Hcalls & Htc) & Hfin & Htags).
  assert (Ht3 : tagsOf w3 span
                = attachError err (<[tagCode := VString (Code_String (CodeOf err))]>
                                     (tagsOf (tagPeer span p w2).2 span))).
  { unfold w3. by rewrite tagsOf_finished, tagsOf_tagged. }
  split_and!.
  - unfold peerTagged. rewrite Ht3, !lookup_attachError_ne by done.
    rewrite !lookup_insert_ne by done. rewrite Htags.
    destruct (Addr p) as [addr|]; cbn [mbind option_bind]; [|done].
    destruct (Net.SplitHostPort addr) as [[host port]|]; [|done].
    rewrite lookup_insert_eq, lookup_insert_ne by done.
    split; [done|]. case_decide; [|done]. by rewrite lookup_insert_eq.
  - rewrite Ht3, lookup_attachError_ne by done. by rewrite lookup_insert_eq.
  - exists (tc ++ [CallSetTag span tagCode (VString (Code_String (CodeOf err)))]).
    split.
    + apply Forall_app. split; [done|]. repeat constructor. eauto.
    + unfold w3. rewrite calls_finished. unfold tagged, calls at 1. cbn.
      fold (calls (tagPeer span p w2).2). rewrite Hcalls. by rewrite <- !app_assoc.
  - apply msFinished_finished.
  - rewrite Ht3. apply lookup_attachError.
    rewrite lookup_insert_ne by done. rewrite Htags.
    destruct (Addr p) as [addr|]; [|done].
    destruct (Net.SplitHostPort addr) as [[host port]|]; [|done].
    rewrite lookup_insert_ne by done.
    case_decide; [|done]. by rewrite lookup_insert_ne.
  - done.
Qed.

End client_facts.

Section config_facts.
Import GrpcV12.

Lemma serviceName_serverConfig G opts :
  serviceName (serverConfig G opts) =
    if decide (configured opts ≠ "") then configured opts
    else if decide (G ≠ "") then G else "grpc.server".
Proof.
  unfold serverConfig, configured, defaults.
  repeat case_decide; try done.
Qed.

Lemma serviceName_clientConfig opts :
  serviceName (clientConfig opts) =
    if decide (configured opts ≠ "") then configured opts else "grpc.client".
Proof.
  unfold clientConfig, configured, defaults.
  repeat case_decide; try done.
Qed.

Lemma configured_last opts name :
  configured (opts ++ [WithServiceName name]) = name.
Proof. unfold configured. by rewrite foldl_app. Qed.

End config_facts.

Section frame.
Context {T : Type}.
Implicit Types (h : gmap positive (list (option T))) (s : Slice).

(** A valid slice reads the same cells in every memory that extends the
    one it is valid in. *)
Lemma elems_weaken h h' s :
  h ⊆ h' → valid h s → elems h' s = elems h s ∧ valid h' s.
Proof.
  intros Hsub [Hv1 Hv2]. unfold elems, valid, backing in *.
  destruct (h !! sArr s) as [a|] eqn:Ha.
  - by rewrite (lookup_weaken _ _ _ _ Ha Hsub).
  - cbn in Hv2. assert (sLen s = 0) as -> by lia.
    split; [by rewrite !take_0 | lia].
Qed.
End frame.

Section heap_facts.
Lemma StartSpanFromContext_heap ctx name s w :
  wHeap (StartSpanFromContext ctx name s w).2 = wHeap w.
Proof.
  unfold StartSpanFromContext. by destruct (StartSpan _ _ _).
Qed.
End heap_facts.

Section registration_facts.
Import Sql.
Context {Driver : Type}.

Lemma Register_registered name (d : Driver) o (reg : gmap string (Driver * config)) :
  is_Some (reg !! name) → Register name d o reg = reg.
Proof. intros [e He]. unfold Register. by rewrite He. Qed.

Lemma Register_lookup name (d : Driver) o (reg : gmap string (Driver * config)) :
  Register name d o reg !! name =
    Some (default (d, registerConfig name o) (reg !! name)).
Proof.
  unfold Register. destruct (reg !! name) as [e|] eqn:He; cbn.
  - done.
  - by rewrite lookup_insert_eq.
Qed.

Lemma Register_keeps name name' (d : Driver) o (reg : gmap string (Driver * config)) e :
  reg !! name = Some e → Register name' d o reg !! name = Some e.
Proof.
  intros He. unfold Register. destruct (reg !! name') eqn:He'; [done|].
  rewrite lookup_insert_ne; [done|]. congruence.
Qed.

Lemma RegisterAll_keeps rs name (reg : gmap string (Driver * config)) e :
  reg !! name = Some e → RegisterAll rs reg !! name = Some e.
Proof.
  revert reg. induction rs as [|[[n d] o] rs IH]; intros reg He; [done|].
  cbn. apply IH. by apply Register_keeps.
Qed.

End registration_facts.

(* ===================================================================== *)
(** ** Worked calls *)
(* ===================================================================== *)

Example SplitHostPort_fixture :
  Net.SplitHostPort "127.0.0.1:5432" = Some ("127.0.0.1", "5432") ∧
  Net.SplitHostPort "[::1]:50051" = Some ("::1", "50051") ∧
  Net.SplitHostPort ":8080" = Some ("", "8080") ∧
  Net.SplitHostPort "/tmp/grpc.sock" = None ∧
  Net.SplitHostPort "::1:50051" = None.
Proof. by vm_compute. Qed.

Example Extract_without_context :
  Extract ∅ = inr ErrSpanContextNotFound ∧
  Extract {[ DefaultTraceIDHeader := ["12"]; DefaultParentIDHeader := ["x"] ]}
    = inr ErrSpanContextCorrupted ∧
  Extract {[ DefaultTraceIDHeader := ["12"]; DefaultParentIDHeader := ["34"] ]}
    = inl (mkSpanContext 12 34).
Proof. by vm_compute. Qed.

(** A failing handler behind the server interceptor, from the initial
    state: one span, started and finished, with the error as tag. *)
Example server_call_failing :
  let handler : GrpcV12.UnaryHandler (Value:=nat) :=
    λ ctx req w, ((0, Some (RpcError NotFound "no such fixture")), w) in
  let '(r, w) := GrpcV12.UnaryServerInterceptor "" [] Background 7
                   (mkInfo "/grpc.Fixture/Ping") handler (mkWorld ∅ Start) in
  let span := mkSpan (mkSpanContext 1 1) in
  r = (0, Some (RpcError NotFound "no such fixture")) ∧
  calls w = [ CallStartSpan "grpc.server" span;
              CallFinish span (Some (RpcError NotFound "no such fixture")) ] ∧
  tagsOf w span !! Ext.Error = Some (VError (RpcError NotFound "no such fixture")) ∧
  tagsOf w span !! Ext.ServiceName = Some (VString "grpc.server") ∧
  msParentID (spanIn w span) = 0%N.
Proof. by vm_compute. Qed.

(** The client interceptor in front of the server interceptor: the server
    span is a child of the client span. *)
Example loopback_spans :
  let w := (GrpcV12.UnaryClientInterceptor [] Background "/grpc.Fixture/Ping"
              7 0 tt (loopback ping) [] (mkWorld ∅ Start)).2 in
  let client := mkSpan (mkSpanContext 1 1) in
  let server := mkSpan (mkSpanContext 1 2) in
  calls w = [ CallStartSpan "grpc.client" client;
              CallStartSpan "grpc.server" server;
              CallFinish server None;
              CallSetTag client "out.host" (VString "127.0.0.1");
              CallSetTag client "out.port" (VString "50051");
              CallSetTag client "grpc.code" (VString "OK");
              CallFinish client None ] ∧
  msParentID (spanIn w server) = 1%N ∧
  msParentID (spanIn w client) = 0%N.
Proof. by vm_compute. Qed.

(** The registrations of TestPostgres and TestOpenOptions, one after the
    other: the entry of the first stays. *)
Example Register_postgres_twice :
  let pq := 1 in
  let reg1 := Sql.Register "postgres" pq
                [Sql.WithServiceName "postgres-test"; Sql.WithAnalyticsRate (2 # 10)] ∅ in
  let reg2 := Sql.Register "postgres" pq [] reg1 in
  reg2 = reg1 ∧
  reg2 !! "postgres" = Some (pq, Sql.mkConfig "postgres-test" (Some (2 # 10)) "") ∧
  Sql.registerConfig "mysql" [] = Sql.mkConfig "mysql.db" None "".
Proof. by vm_compute. Qed.

(* ===================================================================== *)
(** ** The claims *)
(* ===================================================================== *)

Section traced_calls.
Import GrpcV12.

(** Claim C1.  Every traced call made through an adapter (the server
    interceptor, the client interceptor, [Connect]) starts exactly one span
    and finishes that span exactly once, whatever the wrapped call returns
    (a result, an error, the error of a cancellation), and the error of the
    call becomes the error tag of the span when, and only when, there is
    one.

    In each of the three cases [w1] and [w2] are the states in which the
    wrapped call is entered and left.  Before it the adapter makes one call
    to the tracer, the [StartSpan] of [span]; after it, calls that set tags
    of [span] and one [Finish] of [span] with the error [err] the wrapped
    call returned ([tracedOnce]).  The wrapped call may use the tracer
    itself; when it does not, the calls between [w0] and [w3] are these
    alone ([tracedOnce_quiet]). *)
Theorem one_span_per_traced_call :
  (∀ (Value : Type) G opts ctx (req : Value) info (handler : UnaryHandler) w0,
     ∃ span w1 resp err w2 w3,
       handler (ContextWithSpan ctx span) req w1 = ((resp, err), w2) ∧
       UnaryServerInterceptor G opts ctx req info handler w0 = ((resp, err), w3) ∧
       tracedOnce "grpc.server" span err w0 w1 w2 w3) ∧
  (∀ (Value ClientConn : Type) opts ctx method (req reply : Value) (cc : ClientConn)
     (invoker : UnaryInvoker) callopts w0,
     ∃ span w1 err p w2 w3,
       invoker (NewContext (ContextWithSpan ctx span) (outgoingMD ctx span))
               method req reply cc (callopts ++ [PeerOption]) w1 = ((err, p), w2) ∧
       UnaryClientInterceptor opts ctx method req reply cc invoker callopts w0
         = (err, w3) ∧
       tracedOnce "grpc.client" span err w0 w1 w2 w3) ∧
  (∀ (Conn : Type) (t : Sql.tracedConnector (Conn:=Conn)) ctx w0,
     ∃ span w1 conn err w2 w3,
       Sql.connector t (ContextWithSpan ctx span) w1 = ((conn, err), w2) ∧
       Sql.Connect t ctx w0 = ((conn, err), w3) ∧
       tracedOnce (Sql.driverName t +:+ ".query") span err w0 w1 w2 w3).
Proof.
  split_and!.
  - intros. destruct (server_run G opts ctx req info handler w0) as (cells & h1 & H).
    pose proof (tracedOnce_plain "grpc.server" cells w0 h1) as Ht.
    destruct (StartSpan "grpc.server" cells (wTracer w0)) as [span t1].
    destruct H as (_ & _ & Heq).
    destruct (handler (ContextWithSpan ctx span) req (mkWorld h1 t1))
      as [[resp err] w2] eqn:Hh.
    by eexists span, _, resp, err, w2, _.
  - intros. destruct (client_run opts ctx method req reply cc invoker callopts w0)
      as (cells & h1 & H).
    pose proof (StartSpan_calls "grpc.client" cells w0 h1) as Hc.
    destruct (StartSpan "grpc.client" cells (wTracer w0)) as [span t1].
    destruct H as (_ & Heq). cbn zeta in Heq.
    destruct (invoker _ method req reply cc _ (mkWorld h1 t1))
      as [[err p] w2] eqn:Hh.
    destruct (client_after span err p w2) as (_ & _ & Hf & Hfin & He & _).
    eexists span, _, err, p, w2, _.
    split_and!; [exact Hh | exact Heq |]. by split_and!.
  - intros. destruct (Connect_run t ctx w0) as (cells & h1 & H).
    pose proof (tracedOnce_plain (Sql.driverName t +:+ ".query") cells w0 h1) as Ht.
    destruct (StartSpan _ cells (wTracer w0)) as [span t1].
    destruct H as (_ & _ & Heq).
    destruct (Sql.connector t (ContextWithSpan ctx span) (mkWorld h1 t1))
      as [[conn err] w2] eqn:Hh.
    by eexists span, _, conn, err, w2, _.
Qed.

End traced_calls.

Section server_interceptor.
Import GrpcV12.
Context {Value : Type}.

(** Claim C2, as amended.  For every inbound call the function
    [UnaryServerInterceptor] returns extracts the trace context of the
    inbound metadata, starts a span named [grpc.server] that carries the
    method name, the span kind ["server"] and the component, calls the real
    handler with a context that carries the span, finishes the span with
    the error of the handler ([nil] for a success) and returns what the
    handler returned.

    A missing or invalid trace context is no error: the span is then
    started without a parent from the metadata.  The parent of the span is
    the active span of the context when the context carries one (the rule
    of [tracer.StartSpanFromContext]), otherwise the extracted context,
    otherwise the one the span options given at construction name; with
    none of them the span is a root span. *)
Theorem server_interceptor_traces_call G opts ctx (req : Value) info
    (handler : UnaryHandler) w0 :
  let cfg := serverConfig G opts in
  ∃ span w1 resp err w2,
    calls w1 = calls w0 ++ [CallStartSpan "grpc.server" span] ∧
    msName (spanIn w1 span) = "grpc.server" ∧
    tagsOf w1 span !! tagMethod = Some (VString (FullMethod info)) ∧
    tagsOf w1 span !! Ext.SpanKind = Some (VString "server") ∧
    tagsOf w1 span !! Ext.Component
      = Some (VString "google.golang.org/grpc.v12") ∧
    msParentID (spanIn w1 span) =
      match SpanFromContext ctx, Extract (FromContext ctx).1 with
      | Some s, _ => Npos (SpanID (SpanCtx s))
      | None, inl sctx => Npos (SpanID sctx)
      | None, inr _ =>
          parentID (applyOpts (somes (elems (wHeap w0) (spanOpts cfg))))
      end ∧
    handler (ContextWithSpan ctx span) req w1 = ((resp, err), w2) ∧
    UnaryServerInterceptor G opts ctx req info handler w0
      = ((resp, err), finished span err w2).
Proof.
  intros cfg.
  destruct (server_run G opts ctx req info handler w0) as (cells & h1 & H).
  fold cfg in H.
  pose proof (StartSpan_spec "grpc.server" cells (wTracer w0)) as Hs.
  destruct (StartSpan "grpc.server" cells (wTracer w0)) as [span t1].
  destruct H as (_ & Hcells & Heq). destruct Hs as (Hcalls & Hspan & _ & _).
  destruct (handler (ContextWithSpan ctx span) req (mkWorld h1 t1))
    as [[resp err] w2] eqn:Hh.
  exists span, (mkWorld h1 t1), resp, err, w2.
  unfold tagsOf, spanIn. cbn [wTracer]. rewrite Hspan, Hcells.
  cbn [msName msTags msParentID].
  rewrite (app_assoc _ (serverOpts _ _)), applyOpts_app, Tags_childOfs.
  unfold parentID. rewrite Parent_childOfs.
  rewrite applyOpts_app.
  destruct (Tags_serverOpts (applyOpts (somes (elems (wHeap w0) (spanOpts cfg))))
              (FullMethod info) (serviceName cfg)) as (_ & _ & Hm & _ & Hc & Hk).
  split_and!; try done.
  rewrite Parent_serverOpts.
  by destruct (SpanFromContext ctx), (Extract (FromContext ctx).1).
Qed.

End server_interceptor.

(** Claim C2 as stated fails for inbound calls without a trace context in
    the metadata: no root span is started when the context of the call
    carries an active span (the span is a child of it, in its trace), nor
    when a span option given at construction names a parent (grpc.go,
    lines 43 and 53-54 hand [cfg.spanOpts] to the tracer first, line 68
    starts the span from [ctx]). *)
Lemma server_span_not_root_without_metadata :
  let info := mkInfo "/grpc.Fixture/Ping" in
  (* an active span in the context, no metadata *)
  let active := mkSpan (mkSpanContext 7 9) in
  let ctx := mkContext (Some active) None in
  let w := (GrpcV12.UnaryServerInterceptor "" [] ctx 7 info ping
              (mkWorld ∅ Start)).2 in
  let span := mkSpan (mkSpanContext 7 1) in
  (* a parent named at construction, no active span, no metadata *)
  let h : Heap StartSpanOption :=
    {[ 1%positive := [Some (ChildOf (mkSpanContext 40 41))] ]} in
  let opts := [GrpcV12.WithSpanOptions (mkSlice 1 0 1 1)] in
  let w' := (GrpcV12.UnaryServerInterceptor "" opts Background 7 info ping
               (mkWorld h Start)).2 in
  let span' := mkSpan (mkSpanContext 40 1) in
  Extract (FromContext ctx).1 = inr ErrSpanContextNotFound ∧
  calls w = [ CallStartSpan "grpc.server" span; CallFinish span None ] ∧
  msParentID (spanIn w span) = 9%N ∧
  msParentID (spanIn w span) ≠ 0%N ∧
  Extract (FromContext Background).1 = inr ErrSpanContextNotFound ∧
  calls w' = [ CallStartSpan "grpc.server" span'; CallFinish span' None ] ∧
  msParentID (spanIn w' span') = 41%N ∧
  msParentID (spanIn w' span') ≠ 0%N.
Proof. vm_compute. by split_and!. Qed.

Section client_interceptor.
Import GrpcV12.
Context {Value ClientConn : Type}.

(** Claim C3, as amended.  For every outbound call the function
    [UnaryClientInterceptor] returns starts a client span, injects the
    trace context of that span into the outbound metadata, invokes the
    real call, tags the span with the target port of the resolved peer
    address and, when the host part of that address is not empty, with its
    target host, tags the RPC status code, and finishes the span with the
    error of the call, which it returns ([clientCall]).  The slice of span
    options of the configuration is a slice of the memory. *)
Theorem client_interceptor_traces_call opts ctx method (req reply : Value)
    (cc : ClientConn) (invoker : UnaryInvoker) callopts w0 :
  valid (wHeap w0) (spanOpts (clientConfig opts)) →
  clientCall opts ctx method req reply cc invoker callopts w0.
Proof.
  intros Hv.
  destruct (client_run opts ctx method req reply cc invoker callopts w0)
    as (cells & h1 & H).
  pose proof (StartSpan_spec "grpc.client" cells (wTracer w0)) as Hs.
  destruct (StartSpan "grpc.client" cells (wTracer w0)) as [span t1].
  destruct H as (Hcells & Heq). specialize (Hcells Hv). cbn zeta in Heq.
  destruct Hs as (Hcalls & Hspan & _ & _).
  destruct (invoker _ method req reply cc _ (mkWorld h1 t1)) as [[err p] w2] eqn:Hh.
  destruct (client_after span err p w2) as (Hp & Hc & Hf & Hfin & He & _).
  exists span, (mkWorld h1 t1), err, p, w2. eexists.
  unfold tagsOf at 1 2 3, spanIn at 1 2 3 4. cbn [wTracer].
  rewrite Hspan, Hcells. cbn [msName msTags].
  rewrite app_assoc, applyOpts_app, Tags_ctxParent, applyOpts_app.
  destruct (Tags_clientOpts
              (applyOpts (somes (elems (wHeap w0) (spanOpts (clientConfig opts)))))
              method) as (Hm & _ & Hco & Hk & _).
  split_and!; first [done | apply Extract_Inject | exact Heq].
Qed.

End client_interceptor.

(** A call whose peer is known and failed at the server. *)
Lemma client_interceptor_traces_call_witness :
  let invoker := answering (Some (RpcError NotFound "no such fixture"))
                           (Some "127.0.0.1:50051") in
  valid (wHeap (mkWorld ∅ Start)) (GrpcV12.spanOpts (GrpcV12.clientConfig [])) ∧
  clientCall [] Background "/grpc.Fixture/Ping" 0 0 tt invoker [] (mkWorld ∅ Start).
Proof.
  intros invoker.
  assert (Hv : valid (wHeap (mkWorld ∅ Start))
                     (GrpcV12.spanOpts (GrpcV12.clientConfig []))).
  { split; vm_compute; lia. }
  split; [exact Hv|].
  exact (client_interceptor_traces_call [] Background "/grpc.Fixture/Ping" 0 0 tt
           invoker [] (mkWorld ∅ Start) Hv).
Defined.

(** Claim C3 as stated fails for a peer address without host: the peer is
    resolved, [net.SplitHostPort] succeeds, and the span gets the target
    port but no target host (grpc.go, line 107). *)
Lemma client_interceptor_empty_host :
  let invoker := answering None (Some ":8080") in
  let w := (GrpcV12.UnaryClientInterceptor [] Background "/grpc.Fixture/Ping"
              0 0 tt invoker [] (mkWorld ∅ Start)).2 in
  let span := mkSpan (mkSpanContext 1 1) in
  Net.SplitHostPort ":8080" = Some ("", "8080") ∧
  calls w = [ CallStartSpan "grpc.client" span;
              CallSetTag span "out.port" (VString "8080");
              CallSetTag span "grpc.code" (VString "OK");
              CallFinish span None ] ∧
  tagsOf w span !! Ext.TargetPort = Some (VString "8080") ∧
  tagsOf w span !! Ext.TargetHost = None.
Proof. by vm_compute. Qed.

Section service_name.
Import GrpcV12.

(** Claim C4, as amended.  The span the server interceptor emits has the
    service name the options given at the construction of the interceptor
    leave (applied in order, a later one overriding an earlier one) when
    that is not empty, otherwise the global default service name [G] when
    that is not empty, otherwise ["grpc.server"]; no span option given at
    construction changes it.  The client interceptor resolves the service
    name of its configuration as the one the options given at construction
    leave when not empty, otherwise ["grpc.client"]: the global default is
    not consulted.  Neither interceptor has options of a single call. *)
Theorem service_name_resolution :
  (∀ (Value : Type) G opts ctx (req : Value) info (handler : UnaryHandler) w0,
     ∃ span w1 resp err w2,
       calls w1 = calls w0 ++ [CallStartSpan "grpc.server" span] ∧
       handler (ContextWithSpan ctx span) req w1 = ((resp, err), w2) ∧
       UnaryServerInterceptor G opts ctx req info handler w0
         = ((resp, err), finished span err w2) ∧
       tagsOf w1 span !! Ext.ServiceName =
         Some (VString (if decide (configured opts ≠ "") then configured opts
                        else if decide (G ≠ "") then G else "grpc.server"))) ∧
  (∀ opts,
     serviceName (clientConfig opts) =
       if decide (configured opts ≠ "") then configured opts else "grpc.client") ∧
  (∀ opts name, configured (opts ++ [WithServiceName name]) = name).
Proof.
  split_and!; [| apply serviceName_clientConfig | apply configured_last].
  intros.
  destruct (server_run G opts ctx req info handler w0) as (cells & h1 & H).
  pose proof (StartSpan_spec "grpc.server" cells (wTracer w0)) as Hs.
  destruct (StartSpan "grpc.server" cells (wTracer w0)) as [span t1].
  destruct H as (_ & Hcells & Heq). destruct Hs as (Hcalls & Hspan & _ & _).
  destruct (handler (ContextWithSpan ctx span) req (mkWorld h1 t1))
    as [[resp err] w2] eqn:Hh.
  exists span, (mkWorld h1 t1), resp, err, w2.
  split_and!; [done | done | done |].
  unfold tagsOf, spanIn. cbn [wTracer]. rewrite Hspan, Hcells. cbn [msTags].
  rewrite (app_assoc _ (serverOpts _ _)), applyOpts_app, Tags_childOfs, applyOpts_app.
  rewrite <- serviceName_serverConfig.
  apply Tags_serverOpts.
Qed.

End service_name.

(** Claim C4 as stated fails for the client interceptor: built without
    options while the global default service name is ["billing"], its
    configuration resolves to ["grpc.client"] (grpc.go, lines 78-80, never
    read the global default), and the span it emits carries no service
    name at all. *)
Lemma client_ignores_global_service_name :
  let globalServiceName := "billing" in
  let w := (GrpcV12.UnaryClientInterceptor [] Background "/grpc.Fixture/Ping"
              0 0 tt (answering None None) [] (mkWorld ∅ Start)).2 in
  let span := mkSpan (mkSpanContext 1 1) in
  GrpcV12.serviceName (GrpcV12.clientConfig []) = "grpc.client" ∧
  GrpcV12.serviceName (GrpcV12.clientConfig []) ≠ globalServiceName ∧
  calls w = [ CallStartSpan "grpc.client" span;
              CallSetTag span "grpc.code" (VString "OK");
              CallFinish span None ] ∧
  tagsOf w span !! Ext.ServiceName = None ∧
  tagsOf w span !! Ext.ServiceName ≠ Some (VString globalServiceName).
Proof. vm_compute. by split_and!. Qed.

Section registration.
Import Sql.
Context {Driver : Type}.

(** Claim C5.  [Register] is idempotent per driver name: whatever the
    table holds, after a first call with a name every later call with
    that name (other registrations may come in between) changes nothing:
    it returns the table as it is, and the entry of the name is still the
    one the first call left: its driver and configuration when the name
    was new.  [Register] returns nothing but the table: there is no error
    to return or record, and no panic. *)
Theorem Register_idempotent name (d1 d2 : Driver) o1 o2 rs
    (registered : gmap string (Driver * config)) :
  let reg1 := Register name d1 o1 registered in
  let reg2 := RegisterAll rs reg1 in
  Register name d2 o2 reg2 = reg2 ∧
  reg2 !! name = reg1 !! name ∧
  reg1 !! name = Some (default (d1, registerConfig name o1) (registered !! name)).
Proof.
  intros reg1 reg2.
  pose proof (Register_lookup name d1 o1 registered) as H1. fold reg1 in H1.
  pose proof (RegisterAll_keeps rs name reg1 _ H1) as H2. fold reg2 in H2.
  split_and!.
  - apply Register_registered. by rewrite H2.
  - by rewrite H2, H1.
  - done.
Qed.

End registration.

Section error_propagation.
Import GrpcV12.

(** Claim C8.  Whatever the wrapped operation returns (the handler, the
    RPC invocation, the connect call of the driver), the adapter returns
    it as it is: the same error, with the same response or connection.
    What the adapter adds around the call is the span: it is started
    before the call, and after the call the adapter only sets tags of it
    and finishes it with that error ([tracedOnce]); the memory is as the
    wrapped call left it. *)
Theorem errors_propagate_unchanged :
  (∀ (Value : Type) G opts ctx (req : Value) info (handler : UnaryHandler) w0,
     ∃ span w1 resp err w2 w3,
       handler (ContextWithSpan ctx span) req w1 = ((resp, err), w2) ∧
       UnaryServerInterceptor G opts ctx req info handler w0 = ((resp, err), w3) ∧
       wHeap w3 = wHeap w2 ∧
       tracedOnce "grpc.server" span err w0 w1 w2 w3) ∧
  (∀ (Value ClientConn : Type) opts ctx method (req reply : Value) (cc : ClientConn)
     (invoker : UnaryInvoker) callopts w0,
     ∃ span w1 err p w2 w3,
       invoker (NewContext (ContextWithSpan ctx span) (outgoingMD ctx span))
               method req reply cc (callopts ++ [PeerOption]) w1 = ((err, p), w2) ∧
       UnaryClientInterceptor opts ctx method req reply cc invoker callopts w0
         = (err, w3) ∧
       wHeap w3 = wHeap w2 ∧
       tracedOnce "grpc.client" span err w0 w1 w2 w3) ∧
  (∀ (Conn : Type) (t : Sql.tracedConnector (Conn:=Conn)) ctx w0,
     ∃ span w1 conn err w2 w3,
       Sql.connector t (ContextWithSpan ctx span) w1 = ((conn, err), w2) ∧
       Sql.Connect t ctx w0 = ((conn, err), w3) ∧
       wHeap w3 = wHeap w2 ∧
       tracedOnce (Sql.driverName t +:+ ".query") span err w0 w1 w2 w3).
Proof.
  split_and!.
  - intros. destruct (server_run G opts ctx req info handler w0) as (cells & h1 & H).
    pose proof (tracedOnce_plain "grpc.server" cells w0 h1) as Ht.
    destruct (StartSpan "grpc.server" cells (wTracer w0)) as [span t1].
    destruct H as (_ & _ & Heq).
    destruct (handler (ContextWithSpan ctx span) req (mkWorld h1 t1))
      as [[resp err] w2] eqn:Hh.
    by eexists span, _, resp, err, w2, _.
  - intros. destruct (client_run opts ctx method req reply cc invoker callopts w0)
      as (cells & h1 & H).
    pose proof (StartSpan_calls "grpc.client" cells w0 h1) as Hc.
    destruct (StartSpan "grpc.client" cells (wTracer w0)) as [span t1].
    destruct H as (_ & Heq). cbn zeta in Heq.
    destruct (invoker _ method req reply cc _ (mkWorld h1 t1))
      as [[err p] w2] eqn:Hh.
    destruct (client_after span err p w2) as (_ & _ & Hf & Hfin & He & Hheap).
    eexists span, _, err, p, w2, _.
    split_and!; [exact Hh | exact Heq | exact Hheap |].
    by split_and!.
  - intros. destruct (Connect_run t ctx w0) as (cells & h1 & H).
    pose proof (tracedOnce_plain (Sql.driverName t +:+ ".query") cells w0 h1) as Ht.
    destruct (StartSpan _ cells (wTracer w0)) as [span t1].
    destruct H as (_ & _ & Heq).
    destruct (Sql.connector t (ContextWithSpan ctx span) (mkWorld h1 t1))
      as [[conn err] w2] eqn:Hh.
    by eexists span, _, conn, err, w2, _.
Qed.

End error_propagation.

Section round_trip.
Import GrpcV12.


End round_trip.


Section caller_slice.
Import GrpcV12.

(** Claim C10.  [startSpanFromContext] never writes to the slice of
    options of its caller: it copies the options into a new slice and
    appends its own to the copy, so that every array the memory held
    before the call holds the same cells after it (also in the spare
    capacity behind [opts]), and every slice the caller holds, [opts]
    among them, reads as before. *)
Theorem startSpanFromContext_keeps_opts ctx method service opts w :
  let w' := (startSpanFromContext ctx method service opts w).2 in
  (* the options go to the tracer in a slice of a new array: those of the
     caller first, then those of the adapter *)
  (∃ optsLocal,
     startSpanFromContext ctx method service opts w
       = StartSpanFromContext ctx "grpc.server" optsLocal
           (mkWorld (wHeap w') (wTracer w)) ∧
     wHeap w !! sArr optsLocal = None ∧
     somes (elems (wHeap w') optsLocal)
       = somes (elems (wHeap w) opts) ++ serverOpts method service ++ extracted ctx) ∧
  (* every array of the memory holds the cells it held *)
  wHeap w ⊆ wHeap w' ∧
  (* every slice of the caller reads as before *)
  ∀ s, valid (wHeap w) s →
       elems (wHeap w') s = elems (wHeap w) s ∧ valid (wHeap w') s.
Proof.
  intros w'.
  destruct (startSpanFromContext_run ctx method service opts w)
    as (optsLocal & h' & Heq & Hsub & Hnew & Hcells).
  assert (Hh : wHeap w' = h').
  { unfold w'. rewrite Heq. apply StartSpanFromContext_heap. }
  rewrite Hh. split_and!.
  - by exists optsLocal.
  - done.
  - intros s Hv. by apply elems_weaken.
Qed.

End caller_slice.

(** A slice of one option with room for two more. *)
Lemma startSpanFromContext_keeps_opts_witness :
  let h : Heap StartSpanOption := {[ 1%positive := [Some Measured; None; None] ]} in
  let opts := mkSlice 1 0 1 3 in
  let w := mkWorld h Start in
  let w' := (GrpcV12.startSpanFromContext Background "/grpc.Fixture/Ping"
               "grpc.server" opts w).2 in
  valid h opts ∧ elems (wHeap w') opts = elems h opts ∧ valid (wHeap w') opts.
Proof.
  intros h opts w w'.
  assert (Hv : valid h opts) by (split; vm_compute; lia).
  split; [exact Hv|].
  exact (proj2 (proj2 (startSpanFromContext_keeps_opts Background
                         "/grpc.Fixture/Ping" "grpc.server" opts w)) opts Hv).
Defined.

(** By contrast the client interceptor appends to the slice of its
    configuration itself (grpc.go, lines 87-88): with spare capacity the
    options are written into the array behind that slice. *)
Example UnaryClientInterceptor_appends_in_place :
  let h : Heap StartSpanOption :=
    {[ 1%positive := [Some Measured; None; None; None; None] ]} in
  let spanopts := mkSlice 1 0 1 5 in
  let w' := (GrpcV12.UnaryClientInterceptor [GrpcV12.WithSpanOptions spanopts]
               Background "/grpc.Fixture/Ping" 0 0 tt (answering None None) []
               (mkWorld h Start)).2 in
  backing h 1 !! 1 = Some None ∧
  ∃ fn, backing (wHeap w') 1 !! 1 = Some (Some fn).
Proof. split; [done|]. eexists. vm_compute. reflexivity. Qed.

(* ===================================================================== *)
(** ** Strings, [append] and the runs of the interceptors: further facts *)
(* ===================================================================== *)

Lemma append_nil (t : string) : "" +:+ t = t.
Proof. done. Qed.

Lemma append_cons (a : ascii) (s t : string) :
  String a s +:+ t = String a (s +:+ t).
Proof. done. Qed.

Ltac str_step :=
  rewrite ?append_cons, ?append_nil;
  cbn [Net.indexByte Net.lastIndexByte Net.from String.substring
       String.length fmap option_fmap option_map Nat.add];
  rewrite ?append_cons, ?append_nil.

Section string_facts.
Implicit Types (c a : ascii) (s t : string).

Lemma without_nil c : without c "".
Proof. done. Qed.

Lemma without_cons c a s : without c (String a s) ↔ a ≠ c ∧ without c s.
Proof.
  unfold without. str_step. destruct (Ascii.eqb_spec a c) as [->|Hne].
  - split; [done | by intros [? _]].
  - destruct (Net.indexByte c s); str_step; split; try done. by intros [_ ?].
Qed.

Lemma without_app c s t : without c (s +:+ t) ↔ without c s ∧ without c t.
Proof.
  induction s as [|a s IH].
  - split; [by split | by intros [_ ?]].
  - rewrite append_cons, !without_cons, IH. tauto.
Qed.

Lemma contains_without c s : Net.contains c s = false ↔ without c s.
Proof.
  unfold Net.contains, without. rewrite bool_decide_eq_false.
  destruct (Net.indexByte c s) as [n|].
  - split; [intros H; destruct H; eauto | done].
  - split; [done | by intros _ [? ?]].
Qed.

Lemma indexByte_app c s t :
  without c s → Net.indexByte c (s +:+ String c t) = Some (String.length s).
Proof.
  induction s as [|a s IH]; str_step; intros H.
  - by rewrite Ascii.eqb_refl.
  - apply without_cons in H as [Hne H]. rewrite (proj2 (Ascii.eqb_neq _ _) Hne).
    by rewrite IH.
Qed.

Lemma lastIndexByte_without c s : without c s → Net.lastIndexByte c s = None.
Proof.
  induction s as [|a s IH]; [done|]. intros [Hne H]%without_cons. str_step.
  rewrite IH by done. by rewrite (proj2 (Ascii.eqb_neq _ _) Hne).
Qed.

Lemma lastIndexByte_app c s t :
  without c t → Net.lastIndexByte c (s +:+ String c t) = Some (String.length s).
Proof.
  intros Ht. induction s as [|a s IH]; str_step.
  - rewrite lastIndexByte_without by done. by rewrite Ascii.eqb_refl.
  - by rewrite IH.
Qed.

Lemma from_app s t : Net.from (String.length s) (s +:+ t) = t.
Proof. induction s as [|a s IH]; str_step; [by destruct t | done]. Qed.

Lemma from_0 s : Net.from 0 s = s.
Proof. by destruct s. Qed.

Lemma substring_app s t : String.substring 0 (String.length s) (s +:+ t) = s.
Proof.
  induction s as [|a s IH]; str_step; [by destruct t | by rewrite IH].
Qed.

Lemma length_append s t : String.length (s +:+ t) = String.length s + String.length t.
Proof. induction s as [|a s IH]; str_step; [done | by rewrite IH]. Qed.

(** What an index found by [lastIndexByte] splits the string into. *)
Lemma lastIndexByte_Some c s i :
  Net.lastIndexByte c s = Some i →
  s = String.substring 0 i s +:+ String c (Net.from (i + 1) s) ∧
  without c (Net.from (i + 1) s) ∧ String.length (String.substring 0 i s) = i.
Proof.
  revert i. induction s as [|a s IH]; intros i; [done|]. str_step.
  destruct (Net.lastIndexByte c s) as [j|] eqn:Hj.
  - intros [= <-]. destruct (IH j eq_refl) as (H1 & H2 & H3). str_step.
    split_and!; [by rewrite <- H1 | done | by rewrite H3].
  - destruct (Ascii.eqb_spec a c) as [->|]; [|done]. intros [= <-]. str_step.
    rewrite ?from_0. split_and!; try done.
    clear IH. induction s as [|b s IH]; [done|]. cbn [Net.lastIndexByte] in Hj.
    destruct (Net.lastIndexByte c s); [done|].
    destruct (Ascii.eqb_spec b c); [done|]. apply without_cons. auto.
Qed.

Lemma indexByte_Some c s i :
  Net.indexByte c s = Some i →
  s = String.substring 0 i s +:+ String c (Net.from (i + 1) s) ∧
  without c (String.substring 0 i s) ∧ String.length (String.substring 0 i s) = i.
Proof.
  revert i. induction s as [|a s IH]; intros i; [done|]. str_step.
  destruct (Ascii.eqb_spec a c) as [->|Hne].
  - intros [= <-]. str_step. by rewrite ?from_0.
  - destruct (Net.indexByte c s) as [j|]; [|done]. str_step. intros [= <-].
    destruct (IH j eq_refl) as (H1 & H2 & H3). str_step.
    split_and!; [by rewrite <- H1 | by apply without_cons | by rewrite H3].
Qed.
End string_facts.

Section split_facts.
Implicit Types (c a : ascii) (s t hp host port : string).

Lemma lastIndexByte_from c s i :
  Net.lastIndexByte c s = Some i → Net.from i s = String c (Net.from (i + 1) s).
Proof.
  revert i. induction s as [|a s IH]; intros i; [done|]. str_step.
  destruct (Net.lastIndexByte c s) as [j|] eqn:Hj.
  - intros [= <-]. str_step. by apply IH.
  - destruct (Ascii.eqb_spec a c) as [->|]; [|done]. by intros [= <-].
Qed.

Lemma without_from c s i : without c s → without c (Net.from i s).
Proof.
  revert i. induction s as [|a s IH]; intros i H; [by destruct i|].
  destruct i as [|i]; [done|]. str_step. apply IH. by apply without_cons in H as [_ ?].
Qed.

(** The two shapes of [net.SplitHostPort]. *)
Lemma SplitHostPort_plain hp :
  (∀ s, hp ≠ String "[" s) →
  Net.SplitHostPort hp =
    match Net.lastIndexByte ":" hp with
    | None => None
    | Some i =>
        let host := Net.slice 0 i hp in
        if Net.contains ":" host then None
        else if Net.contains "[" hp then None
        else if Net.contains "]" hp then None
        else Some (host, Net.from (i + 1) hp)
    end.
Proof.
  intros Hne. unfold Net.SplitHostPort.
  destruct (Net.lastIndexByte ":" hp) as [i|]; [|done].
  rewrite from_0.
  destruct hp as [|a s]; [done|].
  destruct a as [[] [] [] [] [] [] [] []]; try reflexivity.
  by destruct (Hne s).
Qed.

Lemma SplitHostPort_bracket s :
  Net.SplitHostPort (String "[" s) =
    match Net.lastIndexByte ":" (String "[" s), Net.indexByte "]" s with
    | Some i, Some e =>
        if Nat.eqb (e + 2) (String.length (String "[" s)) then None
        else if Nat.eqb (e + 2) i then
          if Net.contains "[" s then None
          else if Net.contains "]" (Net.from (e + 1) s) then None
          else Some (String.substring 0 e s, Net.from i s)
        else None
    | _, _ => None
    end.
Proof.
  unfold Net.SplitHostPort.
  destruct (Net.lastIndexByte ":" (String "[" s)) as [i|]; [|done].
  str_step. change (Ascii.eqb "[" "]") with false. cbn iota.
  destruct (Net.indexByte "]" s) as [e|]; [|done]. str_step.
  replace (e + 2) with (S (e + 1)) by lia.
  destruct (Nat.eqb (S (e + 1)) (S _)); [done|].
  destruct (Nat.eqb (S (e + 1)) i); [|done].
  unfold Net.slice. replace (S e - 1) with e by lia.
  replace (i + 1) with (S i) by lia. by str_step.
Qed.

Lemma SplitHostPort_no_colon hp : without ":" hp → Net.SplitHostPort hp = None.
Proof.
  intros H. unfold Net.SplitHostPort. by rewrite lastIndexByte_without.
Qed.

Lemma SplitHostPort_join host port :
  without ":" host → without "[" host → without "]" host →
  without ":" port → without "[" port → without "]" port →
  Net.SplitHostPort (host +:+ ":" +:+ port) = Some (host, port).
Proof.
  intros Hc Hl Hr Hpc Hpl Hpr.
  change (host +:+ ":" +:+ port) with (host +:+ String ":" port).
  rewrite SplitHostPort_plain.
  2:{ intros s E. destruct host as [|a host]; [done|].
      rewrite append_cons in E. injection E as -> _.
      by apply without_cons in Hl as [? _]. }
  rewrite lastIndexByte_app by done. cbn zeta.
  unfold Net.slice. rewrite Nat.sub_0_r, substring_app.
  rewrite (proj2 (contains_without _ _) Hc).
  rewrite (proj2 (contains_without "[" _)).
  2:{ apply without_app. split; [done|]. by apply without_cons. }
  rewrite (proj2 (contains_without "]" _)).
  2:{ apply without_app. split; [done|]. by apply without_cons. }
  do 2 f_equal.
  replace (String.length host + 1) with (String.length (host +:+ ":")).
  2:{ rewrite length_append. done. }
  replace (host +:+ String ":" port) with ((host +:+ ":") +:+ port).
  2:{ clear. induction host as [|a host IH]; [done|]. rewrite !append_cons. by f_equal. }
  apply from_app.
Qed.

Lemma SplitHostPort_join_brackets host port :
  without "[" host → without "]" host →
  without ":" port → without "[" port → without "]" port →
  Net.SplitHostPort ("[" +:+ host +:+ "]:" +:+ port) = Some (host, port).
Proof.
  intros Hl Hr Hpc Hpl Hpr.
  change ("[" +:+ host +:+ "]:" +:+ port)
    with (String "[" (host +:+ String "]" (String ":" port))).
  rewrite SplitHostPort_bracket.
  rewrite indexByte_app by done.
  assert (Hlast : Net.lastIndexByte ":" (String "[" (host +:+ String "]" (String ":" port)))
                  = Some (String.length host + 2)).
  { replace (String "[" (host +:+ String "]" (String ":" port)))
      with ((String "[" (host +:+ "]")) +:+ String ":" port).
    2:{ rewrite append_cons. f_equal. clear.
        induction host as [|a host IH]; [done|]. rewrite !append_cons. by f_equal. }
    rewrite lastIndexByte_app by done. f_equal. cbn [String.length].
    rewrite length_append. cbn. lia. }
  rewrite Hlast.
  cbn [String.length]. rewrite length_append. cbn [String.length].
  rewrite (proj2 (Nat.eqb_neq _ _)) by lia.
  rewrite Nat.eqb_refl.
  rewrite (proj2 (contains_without "[" _)).
  2:{ apply without_app. split; [done|]. apply without_cons. split; [done|].
      by apply without_cons. }
  replace (Net.from (String.length host + 1) (host +:+ String "]" (String ":" port)))
    with (String ":" port).
  2:{ replace (host +:+ String "]" (String ":" port)) with ((host +:+ "]") +:+ String ":" port).
      2:{ clear. induction host as [|a host IH]; [done|]. rewrite !append_cons. by f_equal. }
      replace (String.length host + 1) with (String.length (host +:+ "]"))
        by (rewrite length_append; done).
      by rewrite from_app. }
  rewrite (proj2 (contains_without "]" _)) by (by apply without_cons).
  rewrite substring_app. do 2 f_equal.
  replace (host +:+ String "]" (String ":" port))
    with ((host +:+ "]:") +:+ port).
  2:{ clear. induction host as [|a host IH]; [done|]. rewrite !append_cons. by f_equal. }
  replace (String.length host + 2) with (String.length (host +:+ "]:"))
    by (rewrite length_append; done).
  apply from_app.
Qed.

Lemma SplitHostPort_Some hp host port :
  Net.SplitHostPort hp = Some (host, port) →
  without ":" port ∧ without "[" port ∧ without "]" port ∧
  without "[" host ∧ without "]" host ∧
  ((hp = host +:+ ":" +:+ port ∧ without ":" host) ∨
   hp = "[" +:+ host +:+ "]:" +:+ port).
Proof.
  destruct hp as [|a s]; [done|].
  destruct (Ascii.eqb_spec a "[") as [->|Hne].
  - rewrite SplitHostPort_bracket.
    destruct (Net.lastIndexByte ":" (String "[" s)) as [i|] eqn:Hi; [|done].
    destruct (Net.indexByte "]" s) as [e|] eqn:He; [|done].
    destruct (Nat.eqb (e + 2) _); [done|].
    destruct (Nat.eqb_spec (e + 2) i) as [<-|]; [|done].
    destruct (Net.contains "[" s) eqn:Hl; [done|].
    destruct (Net.contains "]" (Net.from (e + 1) s)) eqn:Hr; [done|].
    intros [= <- <-].
    apply contains_without in Hl, Hr.
    destruct (indexByte_Some _ _ _ He) as (Hs & Hh & _).
    destruct (lastIndexByte_Some _ _ _ Hi) as (_ & Hp & _).
    apply lastIndexByte_from in Hi.
    replace (e + 2 + 1) with (S (e + 2)) in * by lia.
    replace (e + 2) with (S (e + 1)) in * by lia.
    cbn [Net.from] in Hi, Hp |- *.
    rewrite Hi in Hs, Hr. rewrite Hs in Hl.
    apply without_app in Hl as [Hl1 Hl2].
    apply without_cons in Hl2 as [_ Hl2]. apply without_cons in Hl2 as [_ Hl2].
    apply without_cons in Hr as [_ Hr].
    split_and!; try done. right. by rewrite Hs at 1.
  - rewrite SplitHostPort_plain by (intros s' [= -> _]; done).
    destruct (Net.lastIndexByte ":" (String a s)) as [i|] eqn:Hi; [|done]. cbn zeta.
    unfold Net.slice. rewrite Nat.sub_0_r.
    destruct (Net.contains ":" _) eqn:Hc; [done|].
    destruct (Net.contains "[" _) eqn:Hl; [done|].
    destruct (Net.contains "]" _) eqn:Hr; [done|].
    intros [= <- <-].
    apply contains_without in Hc, Hl, Hr.
    destruct (lastIndexByte_Some _ _ _ Hi) as (Hs & Hp & _).
    rewrite Hs in Hl, Hr.
    apply without_app in Hl as [Hl1 Hl2]. apply without_cons in Hl2 as [_ Hl2].
    apply without_app in Hr as [Hr1 Hr2]. apply without_cons in Hr2 as [_ Hr2].
    split_and!; try done. left. split; [|done]. by rewrite Hs at 1.
Qed.

End split_facts.

Section append_facts.
Context {T : Type}.
Implicit Types (h : gmap positive (list (option T))) (s : Slice) (xs : list T).
Local Arguments backing : simpl never.
Local Arguments elems : simpl never.

Lemma append_in_place h s xs :
  valid h s → sLen s + length xs ≤ sCap s →
  let h' := (append s xs h).2 in
  dom h' = dom h ∧
  (∀ l, l ≠ sArr s → backing h' l = backing h l) ∧
  backing h' (sArr s) =
    take (sOff s + sLen s) (backing h (sArr s)) ++ (Some <$> xs) ++
    drop (sOff s + sLen s + length xs) (backing h (sArr s)).
Proof.
  intros [Hv1 Hv2] Hcap. unfold append. rewrite decide_True by done. cbn [snd].
  split_and!.
  - apply dom_alter_L.
  - intros l Hl. rewrite backing_alter by apply list_inserts_nil.
    by rewrite decide_False.
  - rewrite backing_alter by apply list_inserts_nil.
    rewrite decide_True by done.
    rewrite list_inserts_split; rewrite length_fmap; [done | lia].
Qed.

Lemma append_grows h s xs :
  sCap s < sLen s + length xs →
  h ⊆ (append s xs h).2 ∧ h !! sArr (append s xs h).1 = None.
Proof.
  intros Hcap. unfold append. rewrite decide_False by lia. cbn [fst snd sArr].
  split; [by apply subseteq_fresh | apply fresh_None].
Qed.

(** [append] keeps what the slice it is given shows, and every cell
    outside the [length xs] cells behind it. *)
Lemma append_frame h s xs :
  valid h s →
  let h' := (append s xs h).2 in
  elems h' s = elems h s ∧ valid h' s ∧
  ∀ l i, is_Some (h !! l) →
         l ≠ sArr s ∨ i < sOff s + sLen s ∨ sOff s + sLen s + length xs ≤ i →
         backing h' l !! i = backing h l !! i.
Proof.
  intros Hv h'. destruct (decide (sLen s + length xs ≤ sCap s)) as [Hcap|Hcap].
  - destruct (append_in_place h s xs Hv Hcap) as (_ & Hother & Harr).
    fold h' in Hother, Harr. pose proof Hv as [Hv1 Hv2].
    assert (Hlen : length (backing h' (sArr s)) = length (backing h (sArr s))).
    { rewrite Harr, !length_app, length_take, length_fmap, length_drop. lia. }
    split_and!.
    + unfold elems. rewrite Harr.
      rewrite drop_app_le by (rewrite length_take; lia).
      rewrite take_app. rewrite length_drop, length_take.
      replace (sLen s - _) with 0 by lia. rewrite take_0, app_nil_r.
      rewrite <- take_drop_commute. rewrite take_take. f_equal. lia.
    + split; [done|]. by rewrite Hlen.
    + intros l i _ Hi. destruct (decide (l = sArr s)) as [->|Hl]; [|by rewrite Hother].
      destruct Hi as [?|[Hi|Hi]]; [done | |].
      * rewrite Harr, lookup_app_l by (rewrite length_take; lia).
        apply lookup_take_lt. lia.
      * rewrite Harr, app_assoc, lookup_app_r
          by (rewrite length_app, length_take, length_fmap; lia).
        rewrite length_app, length_take, length_fmap, lookup_drop. f_equal. lia.
  - destruct (append_grows h s xs) as [Hsub Hnew]; [lia|]. fold h' in Hsub.
    destruct (elems_weaken h h' s Hsub Hv) as [He Hv'].
    split_and!; [done | done |].
    intros l i [a Ha] _. unfold backing.
    by rewrite Ha, (lookup_weaken _ _ _ _ Ha Hsub).
Qed.

End append_facts.

Section run_facts.
Import GrpcV12.
Context {Value ClientConn : Type}.

(** The client interceptor, step by step, with the memory its [append]
    leaves. *)
Lemma client_run_cells opts ctx method req reply cc
    (invoker : UnaryInvoker (Value:=Value) (ClientConn:=ClientConn)) callopts w0 :
  let a := append (spanOpts (clientConfig opts)) (clientOpts method) (wHeap w0) in
  let cells := elems a.2 a.1 ++ (Some <$> ctxParent ctx) in
  let st := StartSpan "grpc.client" cells (wTracer w0) in
  let span := st.1 in
  let r := invoker (NewContext (ContextWithSpan ctx span) (outgoingMD ctx span))
             method req reply cc (callopts ++ [PeerOption]) (mkWorld a.2 st.2) in
  UnaryClientInterceptor opts ctx method req reply cc invoker callopts w0 =
    (r.1.1, finished span r.1.1
              (tagged span tagCode (VString (Code_String (CodeOf r.1.1)))
                 (tagPeer span r.1.2 r.2).2)).
Proof.
  intros a cells st span r. subst r span st cells a.
  unfold UnaryClientInterceptor. fold (clientOpts method).
  unfold bind at 1, onHeap.
  destruct (append _ (clientOpts method) (wHeap w0)) as [s1 h1]. cbn [fst snd].
  unfold bind at 1, StartSpanFromContext. cbn [wHeap wTracer].
  replace (match SpanFromContext ctx with
           | Some s => [Some (ChildOf (SpanCtx s))]
           | None => []
           end) with (Some <$> ctxParent ctx)
    by (unfold ctxParent; by destruct (SpanFromContext ctx)).
  destruct (StartSpan "grpc.client" _ (wTracer w0)) as [span t1]. cbn [fst snd].
  unfold outgoingMD, FromContext, ContextWithSpan. cbn [ctxMD].
  destruct (ctxMD ctx) as [md|]; cbn [default];
    destruct (Inject (SpanCtx span) _) as [md' e] eqn:Hinj; cbn [fst];
    unfold bind at 1;
    destruct (invoker _ method req reply cc _ _) as [[err p] w2];
    cbn [fst snd];
    unfold bind, onTracer, ret, finished, tagged;
    destruct (tagPeer span p w2) as [[] w3]; done.
Qed.

(** The calls the client interceptor makes after the invocation. *)
Lemma calls_tagPeer span p w :
  calls (tagPeer span p w).2 =
    calls w ++ match Addr p ≫= Net.SplitHostPort with
               | Some (host, port) => peerCalls span host port
               | None => []
               end.
Proof.
  unfold tagPeer. destruct (Addr p) as [addr|]; cbn [mbind option_bind];
    [|by rewrite app_nil_r].
  destruct (Net.SplitHostPort addr) as [[host port]|]; [|by rewrite app_nil_r].
  unfold peerCalls, bind, onTracer, ret, calls. case_decide; cbn; [|done].
  by rewrite <- app_assoc.
Qed.

Lemma calls_client_after span err p w2 :
  calls (finished span err
           (tagged span tagCode (VString (Code_String (CodeOf err)))
              (tagPeer span p w2).2)) =
    calls w2 ++ match Addr p ≫= Net.SplitHostPort with
                | Some (host, port) => peerCalls span host port
                | None => []
                end ++ closingCalls span err.
Proof.
  rewrite calls_finished. unfold tagged, calls at 1. cbn [wTracer SetTag mtCalls].
  fold (calls (tagPeer span p w2).2). rewrite calls_tagPeer.
  unfold closingCalls. by rewrite <- !app_assoc.
Qed.

(** The client interceptor as one run. *)
Lemma client_runs opts ctx method req reply cc
    (invoker : UnaryInvoker (Value:=Value) (ClientConn:=ClientConn)) callopts w0 :
  ∃ s1 h1 span t1 err p w2,
    append (spanOpts (clientConfig opts)) (clientOpts method) (wHeap w0) = (s1, h1) ∧
    StartSpan "grpc.client" (elems h1 s1 ++ (Some <$> ctxParent ctx)) (wTracer w0)
      = (span, t1) ∧
    clientRun opts ctx method req reply cc invoker callopts w0
      span (mkWorld h1 t1) err p w2
      (finished span err
         (tagged span tagCode (VString (Code_String (CodeOf err)))
            (tagPeer span p w2).2)).
Proof.
  pose proof (client_run_cells opts ctx method req reply cc invoker callopts w0) as H.
  cbn zeta in H.
  destruct (append _ (clientOpts method) (wHeap w0)) as [s1 h1]. cbn [fst snd] in H.
  pose proof (StartSpan_calls "grpc.client"
                (elems h1 s1 ++ (Some <$> ctxParent ctx)) w0 h1) as Hc.
  destruct (StartSpan "grpc.client" (elems h1 s1 ++ (Some <$> ctxParent ctx))
              (wTracer w0)) as [span t1] eqn:Hst.
  cbn [fst snd] in H.
  destruct (invoker _ method req reply cc _ (mkWorld h1 t1)) as [[err p] w2] eqn:Hr.
  cbn [fst snd] in H.
  exists s1, h1, span, t1, err, p, w2. unfold clientRun. by split_and!.
Qed.

(** The server interceptor as one run. *)
Lemma server_runs G opts ctx req info (handler : UnaryHandler (Value:=Value)) w0 :
  let cfg := serverConfig G opts in
  ∃ cells h1 span t1 resp err w2,
    StartSpan "grpc.server" cells (wTracer w0) = (span, t1) ∧
    wHeap w0 ⊆ h1 ∧
    somes cells = somes (elems (wHeap w0) (spanOpts cfg)) ++
                  serverOpts (FullMethod info) (serviceName cfg) ++
                  extracted ctx ++ ctxParent ctx ∧
    serverRun G opts ctx req info handler w0
      span (mkWorld h1 t1) resp err w2 (finished span err w2).
Proof.
  intros cfg.
  destruct (server_run G opts ctx req info handler w0) as (cells & h1 & H).
  fold cfg in H.
  pose proof (StartSpan_calls "grpc.server" cells w0 h1) as Hc.
  destruct (StartSpan "grpc.server" cells (wTracer w0)) as [span t1] eqn:Hst.
  destruct H as (Hsub & Hcells & Heq).
  destruct (handler (ContextWithSpan ctx span) req (mkWorld h1 t1))
    as [[resp err] w2] eqn:Hh.
  exists cells, h1, span, t1, resp, err, w2. unfold serverRun. by split_and!.
Qed.

End run_facts.

Section other_spans.
Implicit Types (t : MockTracer) (w : World) (s span : Span).

Lemma spanOf_StartSpan_ne name cells t s :
  SpanID (SpanCtx s) ≠ SpanID (SpanCtx (StartSpan name cells t).1) →
  spanOf (StartSpan name cells t).2 s = spanOf t s.
Proof.
  unfold StartSpan, spanOf. cbn. intros Hne. by rewrite lookup_insert_ne.
Qed.

Lemma spanOf_SetTag_ne span k v t s :
  SpanID (SpanCtx s) ≠ SpanID (SpanCtx span) →
  spanOf (SetTag span k v t) s = spanOf t s.
Proof.
  unfold SetTag, spanOf at 1. cbn. intros Hne. by rewrite lookup_insert_ne.
Qed.

Lemma spanOf_Finish_ne span opts t s :
  SpanID (SpanCtx s) ≠ SpanID (SpanCtx span) →
  spanOf (Finish span opts t) s = spanOf t s.
Proof.
  unfold Finish, spanOf at 1. cbn. intros Hne. by rewrite lookup_insert_ne.
Qed.

Lemma spanIn_finished_ne span err w s :
  SpanID (SpanCtx s) ≠ SpanID (SpanCtx span) →
  spanIn (finished span err w) s = spanIn w s.
Proof. intros. unfold spanIn, finished. cbn [wTracer]. by apply spanOf_Finish_ne. Qed.

Lemma spanIn_tagged_ne span k v w s :
  SpanID (SpanCtx s) ≠ SpanID (SpanCtx span) →
  spanIn (tagged span k v w) s = spanIn w s.
Proof. intros. unfold spanIn, tagged. cbn [wTracer]. by apply spanOf_SetTag_ne. Qed.

Lemma spanIn_tagPeer_ne span p w s :
  SpanID (SpanCtx s) ≠ SpanID (SpanCtx span) →
  spanIn (GrpcV12.tagPeer span p w).2 s = spanIn w s.
Proof.
  intros Hne. unfold GrpcV12.tagPeer.
  destruct (Addr p) as [addr|]; [|done].
  destruct (Net.SplitHostPort addr) as [[host port]|]; [|done].
  unfold bind, onTracer, ret, spanIn. case_decide; cbn [fst snd wTracer].
  - by rewrite !spanOf_SetTag_ne.
  - by rewrite spanOf_SetTag_ne.
Qed.
End other_spans.

Section option_tags.
Import GrpcV12.

Lemma Tags_serverOpts_other cfg method service k :
  k ∉ serverTagKeys →
  Tags (foldl (λ cfg fn, fn cfg) cfg (serverOpts method service)) !! k = Tags cfg !! k.
Proof.
  intros Hk. unfold serverTagKeys in Hk.
  repeat (apply not_elem_of_cons in Hk as [? Hk]).
  cbn. by rewrite !lookup_insert_ne by done.
Qed.

Lemma Tags_clientOpts_other cfg method k :
  k ∉ clientTagKeys →
  Tags (foldl (λ cfg fn, fn cfg) cfg (clientOpts method)) !! k = Tags cfg !! k.
Proof.
  intros Hk. unfold clientTagKeys in Hk.
  repeat (apply not_elem_of_cons in Hk as [? Hk]).
  cbn. by rewrite !lookup_insert_ne by done.
Qed.

Lemma Tags_serverOpts_measured cfg method service :
  Tags (foldl (λ cfg fn, fn cfg) cfg (serverOpts method service)) !! Ext.keyMeasured
    = Some (VInt 1).
Proof. cbn. by tag_lookup. Qed.
End option_tags.

(* ===================================================================== *)
(** ** Further properties of grpc.go *)
(* ===================================================================== *)

Section server_span_tags.
Import GrpcV12.
Context {Value : Type}.

(** Property X1.  Whatever span options were given at construction, the
    span the server interceptor starts has the full method name as
    resource name, the span type ["rpc"] and the mark of a measured span;
    and the tags those options set under keys the interceptor does not set
    itself are on the span as well. *)
Theorem server_span_standard_tags G opts ctx (req : Value) info
    (handler : UnaryHandler) w0 :
  let cfg := serverConfig G opts in
  let given := Tags (applyOpts (somes (elems (wHeap w0) (spanOpts cfg)))) in
  ∃ span w1 resp err w2 w3,
    serverRun G opts ctx req info handler w0 span w1 resp err w2 w3 ∧
    tagsOf w1 span !! Ext.ResourceName = Some (VString (FullMethod info)) ∧
    tagsOf w1 span !! Ext.SpanType = Some (VString "rpc") ∧
    tagsOf w1 span !! Ext.keyMeasured = Some (VInt 1) ∧
    ∀ k v, k ∉ serverTagKeys → given !! k = Some v → tagsOf w1 span !! k = Some v.
Proof.
  intros cfg given.
  destruct (server_runs G opts ctx req info handler w0)
    as (cells & h1 & span & t1 & resp & err & w2 & Hst & _ & Hcells & Hrun).
  fold cfg in Hcells.
  pose proof (StartSpan_spec "grpc.server" cells (wTracer w0)) as Hs.
  rewrite Hst in Hs. destruct Hs as (_ & Hspan & _).
  exists span, (mkWorld h1 t1), resp, err, w2, (finished span err w2).
  unfold tagsOf, spanIn. cbn [wTracer]. rewrite Hspan, Hcells. cbn [msTags].
  rewrite (app_assoc _ (serverOpts _ _)), applyOpts_app, Tags_childOfs, applyOpts_app.
  fold given.
  destruct (Tags_serverOpts (applyOpts (somes (elems (wHeap w0) (spanOpts cfg))))
              (FullMethod info) (serviceName cfg)) as (_ & Hr & _ & Ht & _).
  split_and!; [done | done | done | apply Tags_serverOpts_measured |].
  intros k v Hk Hg. by rewrite Tags_serverOpts_other.
Qed.

End server_span_tags.

Section client_span.
Import GrpcV12.
Context {Value ClientConn : Type}.

(** The options the client span is started with, on a valid slice. *)
Lemma client_start_options opts method ctx w0 s1 h1 :
  valid (wHeap w0) (spanOpts (clientConfig opts)) →
  append (spanOpts (clientConfig opts)) (clientOpts method) (wHeap w0) = (s1, h1) →
  somes (elems h1 s1 ++ (Some <$> ctxParent ctx)) =
    somes (elems (wHeap w0) (spanOpts (clientConfig opts))) ++
    clientOpts method ++ ctxParent ctx.
Proof.
  intros Hv Ha.
  pose proof (append_spec (wHeap w0) (wHeap w0) _ (clientOpts method)
                (reflexivity _) Hv) as Happ.
  rewrite Ha in Happ. destruct Happ as (_ & He & _).
  rewrite somes_app, somes_Some, He, somes_app, somes_Some. by rewrite <- app_assoc.
Qed.

(** Property X2.  The span the client interceptor starts has the span type
    ["rpc"], and carries the tags the span options of the configuration
    set under keys other than the four the interceptor sets itself.  The
    slice of span options of the configuration is a slice of the
    memory. *)
Theorem client_span_type_and_given_tags opts ctx method (req reply : Value)
    (cc : ClientConn) (invoker : UnaryInvoker) callopts w0 :
  let s := spanOpts (clientConfig opts) in
  let given := Tags (applyOpts (somes (elems (wHeap w0) s))) in
  valid (wHeap w0) s →
  ∃ span w1 err p w2 w3,
    clientRun opts ctx method req reply cc invoker callopts w0 span w1 err p w2 w3 ∧
    tagsOf w1 span !! Ext.SpanType = Some (VString "rpc") ∧
    ∀ k v, k ∉ clientTagKeys → given !! k = Some v → tagsOf w1 span !! k = Some v.
Proof.
  intros s given Hv.
  destruct (client_runs opts ctx method req reply cc invoker callopts w0)
    as (s1 & h1 & span & t1 & err & p & w2 & Ha & Hst & Hrun).
  pose proof (StartSpan_spec "grpc.client" (elems h1 s1 ++ (Some <$> ctxParent ctx))
                (wTracer w0)) as Hs.
  rewrite Hst in Hs. destruct Hs as (_ & Hspan & _).
  rewrite (client_start_options opts method ctx w0 s1 h1 Hv Ha) in Hspan.
  eexists span, (mkWorld h1 t1), err, p, w2, _. split; [exact Hrun|].
  unfold tagsOf, spanIn. cbn [wTracer]. rewrite Hspan. cbn [msTags].
  rewrite app_assoc, applyOpts_app, Tags_ctxParent, applyOpts_app.
  fold s given.
  destruct (Tags_clientOpts (applyOpts (somes (elems (wHeap w0) s))) method)
    as (_ & Ht & _).
  split; [done|].
  intros k v Hk Hg. by rewrite Tags_clientOpts_other.
Qed.

(** Property X3.  The client span is a child of the active span of the
    context of the call, in the trace of that span; with no active span its
    parent is the one the span options of the configuration name, if any.
    A trace context in the metadata of the context plays no part: the
    client interceptor extracts nothing. *)
Theorem client_span_parent opts ctx method (req reply : Value)
    (cc : ClientConn) (invoker : UnaryInvoker) callopts w0 :
  let s := spanOpts (clientConfig opts) in
  valid (wHeap w0) s →
  ∃ span w1 err p w2 w3,
    clientRun opts ctx method req reply cc invoker callopts w0 span w1 err p w2 w3 ∧
    msParentID (spanIn w1 span) =
      match SpanFromContext ctx with
      | Some active => Npos (SpanID (SpanCtx active))
      | None => parentID (applyOpts (somes (elems (wHeap w0) s)))
      end ∧
    ∀ active, SpanFromContext ctx = Some active →
              TraceID (SpanCtx span) = TraceID (SpanCtx active).
Proof.
  intros s Hv.
  destruct (client_runs opts ctx method req reply cc invoker callopts w0)
    as (s1 & h1 & span & t1 & err & p & w2 & Ha & Hst & Hrun).
  pose proof (StartSpan_spec "grpc.client" (elems h1 s1 ++ (Some <$> ctxParent ctx))
                (wTracer w0)) as Hs.
  rewrite Hst in Hs. destruct Hs as (_ & Hspan & _ & Htrace).
  rewrite (client_start_options opts method ctx w0 s1 h1 Hv Ha) in Hspan, Htrace.
  eexists span, (mkWorld h1 t1), err, p, w2, _. split; [exact Hrun|].
  rewrite app_assoc, applyOpts_app, Parent_ctxParent, applyOpts_app,
    Parent_clientOpts in Htrace.
  unfold spanIn. cbn [wTracer]. rewrite Hspan. cbn [msParentID].
  unfold parentID at 1.
  rewrite app_assoc, applyOpts_app, Parent_ctxParent, applyOpts_app, Parent_clientOpts.
  fold s. split.
  - by destruct (SpanFromContext ctx).
  - intros active Hact. by rewrite Hact in Htrace.
Qed.

(** Property X4.  The function [UnaryClientInterceptor] returns uses its
    configuration through [cfg.spanOpts] only: two lists of options that
    leave the same slice of span options give interceptors that agree on
    every call, in the error they return and in the state they leave (the
    spans and calls of the tracer, the memory).  The service name of the
    configuration (lines 78-80) reaches neither the span nor the
    invocation; the debug message of line 81 alone shows it. *)
Theorem client_interceptor_reads_span_options_only opts1 opts2 :
  spanOpts (clientConfig opts1) = spanOpts (clientConfig opts2) →
  ∀ ctx method (req reply : Value) (cc : ClientConn) (invoker : UnaryInvoker)
    callopts w,
    UnaryClientInterceptor opts1 ctx method req reply cc invoker callopts w =
    UnaryClientInterceptor opts2 ctx method req reply cc invoker callopts w.
Proof.
  intros Heq ctx method req reply cc invoker callopts w.
  rewrite !client_run_cells. cbn zeta. by rewrite Heq.
Qed.

(** Property X5.  A call through the client interceptor leaves the slice of
    span options of the configuration as it found it: when the invocation
    starts the slice shows the same cells and is still valid, and in the
    arrays that existed before the call every cell other than the four
    behind the slice holds what it held; after the invocation the
    interceptor writes nothing to the memory.  The options of a call
    therefore do not add up from call to call. *)
Theorem client_interceptor_keeps_config_slice opts ctx method (req reply : Value)
    (cc : ClientConn) (invoker : UnaryInvoker) callopts w0 :
  let s := spanOpts (clientConfig opts) in
  valid (wHeap w0) s →
  ∃ span w1 err p w2 w3,
    clientRun opts ctx method req reply cc invoker callopts w0 span w1 err p w2 w3 ∧
    wHeap w3 = wHeap w2 ∧
    elems (wHeap w1) s = elems (wHeap w0) s ∧ valid (wHeap w1) s ∧
    ∀ l i, is_Some (wHeap w0 !! l) →
           l ≠ sArr s ∨ i < sOff s + sLen s ∨ sOff s + sLen s + 4 ≤ i →
           backing (wHeap w1) l !! i = backing (wHeap w0) l !! i.
Proof.
  intros s Hv.
  destruct (client_runs opts ctx method req reply cc invoker callopts w0)
    as (s1 & h1 & span & t1 & err & p & w2 & Ha & Hst & Hrun).
  pose proof (append_frame (wHeap w0) s (clientOpts method) Hv) as Hf.
  fold s in Ha. rewrite Ha in Hf. cbn [snd] in Hf. destruct Hf as (He & Hv1 & Hcells).
  eexists span, (mkWorld h1 t1), err, p, w2, _. split; [exact Hrun|].
  split_and!; [| done | done | exact Hcells].
  unfold finished, tagged. cbn [wHeap]. apply tagPeer_spec.
Qed.


End client_span.

(** The configuration of the test: one span option, the tag [foo]. *)
Lemma client_span_type_and_given_tags_witness :
  let h : Heap StartSpanOption :=
    {[ 1%positive := [Some (Tag "foo" (VString "bar"))] ]} in
  let opts := [GrpcV12.WithSpanOptions (mkSlice 1 0 1 1)] in
  let w0 := mkWorld h Start in
  valid h (GrpcV12.spanOpts (GrpcV12.clientConfig opts)) ∧
  ∃ span w1 err p w2 w3,
    clientRun opts Background "/grpc.Fixture/Ping" 0 0 tt
      (answering None (Some "127.0.0.1:50051")) [] w0 span w1 err p w2 w3 ∧
    tagsOf w1 span !! Ext.SpanType = Some (VString "rpc") ∧
    tagsOf w1 span !! "foo" = Some (VString "bar").
Proof.
  intros h opts w0.
  assert (Hv : valid h (GrpcV12.spanOpts (GrpcV12.clientConfig opts)))
    by (split; vm_compute; lia).
  split; [exact Hv|].
  destruct (client_span_type_and_given_tags opts Background "/grpc.Fixture/Ping"
              0 0 tt (answering None (Some "127.0.0.1:50051")) [] w0 Hv)
    as (span & w1 & err & p & w2 & w3 & Hrun & Htype & Hgiven).
  exists span, w1, err, p, w2, w3. split_and!; [exact Hrun | exact Htype |].
  apply Hgiven; [|by vm_compute].
  apply (bool_decide_unpack _). by vm_compute.
Defined.

(** A call made with the context of a span of trace 7. *)
Lemma client_span_parent_witness :
  let active := mkSpan (mkSpanContext 7 9) in
  let ctx := mkContext (Some active) None in
  let w0 := mkWorld ∅ Start in
  valid (wHeap w0) (GrpcV12.spanOpts (GrpcV12.clientConfig [])) ∧
  ∃ span w1 err p w2 w3,
    clientRun [] ctx "/grpc.Fixture/Ping" 0 0 tt (answering None None) []
      w0 span w1 err p w2 w3 ∧
    msParentID (spanIn w1 span) = 9%N ∧
    TraceID (SpanCtx span) = 7%positive.
Proof.
  intros active ctx w0.
  assert (Hv : valid (wHeap w0) (GrpcV12.spanOpts (GrpcV12.clientConfig [])))
    by (split; vm_compute; lia).
  split; [exact Hv|].
  destruct (client_span_parent [] ctx "/grpc.Fixture/Ping" 0 0 tt
              (answering None None) [] w0 Hv)
    as (span & w1 & err & p & w2 & w3 & Hrun & Hparent & Htrace).
  exists span, w1, err, p, w2, w3.
  split_and!; [exact Hrun | exact Hparent | exact (Htrace active eq_refl)].
Defined.

(** An interceptor built with a service name and one built without. *)
Lemma client_interceptor_reads_span_options_only_witness :
  let opts1 := [GrpcV12.WithServiceName "billing"] in
  let opts2 : list GrpcV12.InterceptorOption := [] in
  GrpcV12.spanOpts (GrpcV12.clientConfig opts1)
    = GrpcV12.spanOpts (GrpcV12.clientConfig opts2) ∧
  ∀ w, GrpcV12.UnaryClientInterceptor opts1 Background "/grpc.Fixture/Ping" 0 0 tt
         (answering None (Some "127.0.0.1:50051")) [] w
       = GrpcV12.UnaryClientInterceptor opts2 Background "/grpc.Fixture/Ping" 0 0 tt
           (answering None (Some "127.0.0.1:50051")) [] w.
Proof.
  intros opts1 opts2.
  assert (Heq : GrpcV12.spanOpts (GrpcV12.clientConfig opts1)
                = GrpcV12.spanOpts (GrpcV12.clientConfig opts2)) by reflexivity.
  split; [exact Heq|]. intros w.
  exact (client_interceptor_reads_span_options_only opts1 opts2 Heq Background
           "/grpc.Fixture/Ping" 0 0 tt (answering None (Some "127.0.0.1:50051")) [] w).
Defined.

(** A slice of one option over an array of five cells. *)
Lemma client_interceptor_keeps_config_slice_witness :
  let h : Heap StartSpanOption :=
    {[ 1%positive := [Some Measured; None; None; None; None] ]} in
  let s := mkSlice 1 0 1 5 in
  let opts := [GrpcV12.WithSpanOptions s] in
  let w0 := mkWorld h Start in
  valid h (GrpcV12.spanOpts (GrpcV12.clientConfig opts)) ∧
  ∃ span w1 err p w2 w3,
    clientRun opts Background "/grpc.Fixture/Ping" 0 0 tt (answering None None) []
      w0 span w1 err p w2 w3 ∧
    elems (wHeap w1) s = elems h s ∧ valid (wHeap w1) s.
Proof.
  intros h s opts w0.
  assert (Hv : valid h (GrpcV12.spanOpts (GrpcV12.clientConfig opts)))
    by (split; vm_compute; lia).
  split; [exact Hv|].
  destruct (client_interceptor_keeps_config_slice opts Background
              "/grpc.Fixture/Ping" 0 0 tt (answering None None) [] w0 Hv)
    as (span & w1 & err & p & w2 & w3 & Hrun & _ & Hsame & Hvalid & _).
  exists span, w1, err, p, w2, w3. split_and!; [exact Hrun | exact Hsame | exact Hvalid].
Defined.


Section reallocation.
Import GrpcV12.
Local Arguments backing : simpl never.
Local Arguments elems : simpl never.

(** Property X7.  The array [startSpanFromContext] makes for its copy, with
    six spare cells (line 53), is never the one that reaches the tracer:
    the seven options of lines 56-62 do not fit, so [append] moves the
    options to another new array, and the array made first is left with the
    copy of the caller's options and its six zero cells. *)
Theorem startSpanFromContext_outgrows_capacity ctx method service opts w :
  valid (wHeap w) opts →
  ∃ made optsLocal h',
    wHeap w !! made = None ∧
    startSpanFromContext ctx method service opts w
      = StartSpanFromContext ctx "grpc.server" optsLocal (mkWorld h' (wTracer w)) ∧
    backing h' made = elems (wHeap w) opts ++ replicate 6 None ∧
    sArr optsLocal ≠ made ∧
    wHeap w !! sArr optsLocal = None.
Proof.
  intros Hv. destruct w as [h t]. cbn [wHeap wTracer] in *.
  unfold startSpanFromContext, bind, onHeap. cbn [wHeap wTracer].
  fold (serverOpts method service).
  unfold make. set (l := fresh (dom h)). set (n := sLen opts).
  assert (Hl : h !! l = None) by apply fresh_None.
  set (h1 := <[l := replicate (n + 6) None]> h). cbn [wHeap wTracer].
  unfold copy. cbn [sLen sOff sArr wHeap wTracer]. rewrite Nat.min_id.
  assert (He : elems h1 opts = elems h opts).
  { apply elems_weaken; [|done]. by apply insert_subseteq. }
  rewrite He, take_ge by (by rewrite length_elems).
  set (h2 := alter (list_inserts 0 (elems h opts)) l h1).
  assert (Hb2 : backing h2 l = elems h opts ++ replicate 6 None).
  { unfold h2. rewrite backing_alter by apply list_inserts_nil.
    rewrite decide_True by done. unfold h1. rewrite backing_insert, decide_True by done.
    rewrite replicate_add.
    apply list_inserts_0_r. rewrite length_replicate. by apply length_elems. }
  unfold append at 1. cbn [sLen sCap sArr sOff].
  rewrite decide_False by (cbn; lia).
  set (l2 := fresh (dom h2)).
  assert (Hl2 : h2 !! l2 = None) by apply fresh_None.
  assert (Hdom : l2 ≠ l).
  { intros E. rewrite E in Hl2. unfold h2, h1 in Hl2.
    rewrite lookup_alter_eq, lookup_insert_eq in Hl2. done. }
  assert (Hh2 : h ⊆ h2).
  { unfold h2. apply subseteq_alter; [|done]. by apply insert_subseteq. }
  assert (Hfresh2 : h !! l2 = None).
  { destruct (h !! l2) eqn:E; [|done].
    by rewrite (lookup_weaken _ _ _ _ E Hh2) in Hl2. }
  set (h3 := <[l2 := _]> h2).
  assert (Hb3 : backing h3 l = elems h opts ++ replicate 6 None).
  { unfold h3. rewrite backing_insert. by rewrite decide_False. }
  destruct (FromContext ctx) as [md ok].
  destruct (Extract md) as [sctx|e]; cbn [wHeap wTracer].
  - unfold append. cbn [sLen sCap sArr sOff length].
    case_decide as Hcap.
    + cbn [wHeap wTracer sArr].
      eexists l, _, _. split_and!; [done | reflexivity | | done | done].
      rewrite backing_alter by apply list_inserts_nil.
      by rewrite decide_False.
    + exfalso. unfold growCap in *. cbn [length serverOpts] in *. lia.
  - eexists l, _, _. split_and!; [done | reflexivity | done | done | done].
Qed.

End reallocation.

(** A slice of one option with room for two more. *)
Lemma startSpanFromContext_outgrows_capacity_witness :
  let h : Heap StartSpanOption := {[ 1%positive := [Some Measured; None; None] ]} in
  let opts := mkSlice 1 0 1 3 in
  let w := mkWorld h Start in
  valid h opts ∧
  ∃ made optsLocal h',
    h !! made = None ∧
    GrpcV12.startSpanFromContext Background "/grpc.Fixture/Ping" "grpc.server" opts w
      = StartSpanFromContext Background "grpc.server" optsLocal (mkWorld h' Start) ∧
    backing h' made = elems h opts ++ replicate 6 None ∧
    sArr optsLocal ≠ made.
Proof.
  intros h opts w.
  assert (Hv : valid h opts) by (split; vm_compute; lia).
  split; [exact Hv|].
  destruct (startSpanFromContext_outgrows_capacity Background "/grpc.Fixture/Ping"
              "grpc.server" opts w Hv)
    as (made & optsLocal & h' & Hnew & Heq & Hmade & Hne & _).
  exists made, optsLocal, h'. split_and!; [exact Hnew | exact Heq | exact Hmade | exact Hne].
Defined.

Section span_nesting.
Import GrpcV12.

(** Property X8.  Both interceptors tag and finish the span they started,
    and no other: a span with another identifier is, when the wrapped call
    starts, as it was before the interceptor ran and, when the interceptor
    returns, as the wrapped call left it. *)
Theorem interceptors_touch_own_span_only :
  (∀ (Value : Type) G opts ctx (req : Value) info (handler : UnaryHandler) w0,
     ∃ span w1 resp err w2 w3,
       serverRun G opts ctx req info handler w0 span w1 resp err w2 w3 ∧
       ∀ s, SpanID (SpanCtx s) ≠ SpanID (SpanCtx span) →
            spanIn w1 s = spanIn w0 s ∧ spanIn w3 s = spanIn w2 s) ∧
  (∀ (Value ClientConn : Type) opts ctx method (req reply : Value) (cc : ClientConn)
     (invoker : UnaryInvoker) callopts w0,
     ∃ span w1 err p w2 w3,
       clientRun opts ctx method req reply cc invoker callopts w0 span w1 err p w2 w3 ∧
       ∀ s, SpanID (SpanCtx s) ≠ SpanID (SpanCtx span) →
            spanIn w1 s = spanIn w0 s ∧ spanIn w3 s = spanIn w2 s).
Proof.
  split.
  - intros.
    destruct (server_runs G opts ctx req info handler w0)
      as (cells & h1 & span & t1 & resp & err & w2 & Hst & _ & _ & Hrun).
    eexists span, (mkWorld h1 t1), resp, err, w2, _. split; [exact Hrun|].
    intros s Hne. split.
    + pose proof (spanOf_StartSpan_ne "grpc.server" cells (wTracer w0) s) as Hs.
      rewrite Hst in Hs. by apply Hs.
    + by apply spanIn_finished_ne.
  - intros.
    destruct (client_runs opts ctx method req reply cc invoker callopts w0)
      as (s1 & h1 & span & t1 & err & p & w2 & _ & Hst & Hrun).
    eexists span, (mkWorld h1 t1), err, p, w2, _. split; [exact Hrun|].
    intros s Hne. split.
    + pose proof (spanOf_StartSpan_ne "grpc.client"
                    (elems h1 s1 ++ (Some <$> ctxParent ctx)) (wTracer w0) s) as Hs.
      rewrite Hst in Hs. by apply Hs.
    + rewrite spanIn_finished_ne, spanIn_tagged_ne by done.
      by apply spanIn_tagPeer_ne.
Qed.

(** Property X9.  A handler behind the server interceptor that calls
    through the client interceptor with the context it was given
    ([callingThrough]): the client span is a child of the server span, in
    the same trace; the invocation runs with the client span as active
    span; and the client span is finished before the server span, both
    with the error of the invocation, which the server interceptor
    returns. *)
Theorem client_call_inside_handler (Value ClientConn : Type)
    G sopts copts ctx (req : Value) info method (reply : Value) (cc : ClientConn)
    (invoker : UnaryInvoker) callopts w0 :
  let handler := callingThrough copts method reply cc invoker callopts in
  ∃ sspan cspan ictx w1 err p w2 w3 tc,
    calls w1 = calls w0 ++ [ CallStartSpan "grpc.server" sspan;
                             CallStartSpan "grpc.client" cspan ] ∧
    invoker ictx method req reply cc (callopts ++ [PeerOption]) w1 = ((err, p), w2) ∧
    UnaryServerInterceptor G sopts ctx req info handler w0 = ((reply, err), w3) ∧
    SpanFromContext ictx = Some cspan ∧
    msParentID (spanIn w1 cspan) = Npos (SpanID (SpanCtx sspan)) ∧
    TraceID (SpanCtx cspan) = TraceID (SpanCtx sspan) ∧
    onlySetTags cspan tc ∧
    calls w3 = calls w2 ++ tc ++ [CallFinish cspan err; CallFinish sspan err].
Proof.
  intros handler.
  destruct (server_runs G sopts ctx req info handler w0)
    as (cells & h1 & sspan & t1 & resp & err & w2s & Hst & _ & _ & Hc1 & Hh & Heq).
  unfold handler, callingThrough in Hh.
  destruct (client_runs copts (ContextWithSpan ctx sspan) method req reply cc invoker
              callopts (mkWorld h1 t1))
    as (s1 & h1c & cspan & t1c & cerr & p & w2 & _ & Hcst & Hc2 & Hinv & Hceq).
  rewrite Hceq in Hh. injection Hh as <- <- <-.
  pose proof (StartSpan_spec "grpc.client"
                (elems h1c s1 ++ (Some <$> ctxParent (ContextWithSpan ctx sspan)))
                (wTracer (mkWorld h1 t1))) as Hs.
  rewrite Hcst in Hs. destruct Hs as (_ & Hspan & _ & Htrace).
  rewrite somes_app, somes_Some, applyOpts_app in Hspan, Htrace.
  destruct (client_after cspan cerr p w2) as (_ & _ & (tc & Htc & Hcalls) & _).
  eexists sspan, cspan, _, (mkWorld h1c t1c), cerr, p, w2, _, tc.
  split_and!.
  - rewrite Hc2, Hc1. by rewrite <- app_assoc.
  - exact Hinv.
  - exact Heq.
  - done.
  - unfold spanIn. cbn [wTracer]. by rewrite Hspan.
  - exact Htrace.
  - exact Htc.
  - rewrite calls_finished, Hcalls. by rewrite <- !app_assoc.
Qed.

End span_nesting.

Section peer_address.
Import GrpcV12.
Context {Value ClientConn : Type}.

Lemma port_tag_not_closing span err port :
  CallSetTag span Ext.TargetPort (VString port) ∉ closingCalls span err.
Proof.
  unfold closingCalls. rewrite list_elem_of_In. cbn.
  intros [H|[H|[]]]; inversion H.
Qed.

Lemma port_tag_peerCalls span host port' port :
  CallSetTag span Ext.TargetPort (VString port) ∈ peerCalls span host port' →
  port' = port.
Proof.
  unfold peerCalls. rewrite list_elem_of_In.
  case_decide; cbn; intros Hin; repeat destruct Hin as [Hin|Hin]; by inversion Hin.
Qed.

(** Property X10.  When the invocation resolves no peer ([p.Addr] is nil) or
    the address of the peer holds no colon (the path of a Unix socket), the
    client interceptor sets no target tag: after the invocation it makes
    two calls, the status code and the finish, and the tags [out.host] and
    [out.port] of the span are as the invocation left them. *)
Theorem client_peer_without_port opts ctx method (req reply : Value)
    (cc : ClientConn) (invoker : UnaryInvoker) callopts w0 :
  ∃ span w1 err p w2 w3,
    clientRun opts ctx method req reply cc invoker callopts w0 span w1 err p w2 w3 ∧
    (Addr p = None ∨ (∃ addr, Addr p = Some addr ∧ without ":" addr) →
     calls w3 = calls w2 ++ closingCalls span err ∧
     tagsOf w3 span !! Ext.TargetHost = tagsOf w2 span !! Ext.TargetHost ∧
     tagsOf w3 span !! Ext.TargetPort = tagsOf w2 span !! Ext.TargetPort).
Proof.
  destruct (client_runs opts ctx method req reply cc invoker callopts w0)
    as (s1 & h1 & span & t1 & err & p & w2 & Ha & Hst & Hrun).
  eexists span, (mkWorld h1 t1), err, p, w2, _. split; [exact Hrun|].
  intros Hp.
  assert (Hsplit : Addr p ≫= Net.SplitHostPort = None).
  { destruct Hp as [->|(addr & -> & Hc)]; [done|]. by apply SplitHostPort_no_colon. }
  rewrite calls_client_after, Hsplit.
  destruct (client_after span err p w2) as (Hpeer & _).
  unfold peerTagged in Hpeer. rewrite Hsplit in Hpeer. destruct Hpeer as [Hport Hhost].
  by split_and!.
Qed.

(** Property X11.  For a peer address [host:port] with no colon in [host],
    or [[host]:port] (the form in which a host with colons is written),
    with no bracket in [host] and no colon or bracket in [port], the client
    interceptor sets [out.host] to [host], without the brackets, unless
    [host] is empty, then [out.port] to [port], then the status code, and
    finishes the span. *)
Theorem client_peer_host_and_port opts ctx method (req reply : Value)
    (cc : ClientConn) (invoker : UnaryInvoker) callopts w0 :
  ∃ span w1 err p w2 w3,
    clientRun opts ctx method req reply cc invoker callopts w0 span w1 err p w2 w3 ∧
    ∀ host port,
      without "[" host → without "]" host →
      without ":" port → without "[" port → without "]" port →
      (Addr p = Some (host +:+ ":" +:+ port) ∧ without ":" host) ∨
      Addr p = Some ("[" +:+ host +:+ "]:" +:+ port) →
      calls w3 = calls w2 ++ peerCalls span host port ++ closingCalls span err ∧
      tagsOf w3 span !! Ext.TargetPort = Some (VString port) ∧
      (host ≠ "" → tagsOf w3 span !! Ext.TargetHost = Some (VString host)).
Proof.
  destruct (client_runs opts ctx method req reply cc invoker callopts w0)
    as (s1 & h1 & span & t1 & err & p & w2 & Ha & Hst & Hrun).
  eexists span, (mkWorld h1 t1), err, p, w2, _. split; [exact Hrun|].
  intros host port Hl Hr Hpc Hpl Hpr Hp.
  assert (Hsplit : Addr p ≫= Net.SplitHostPort = Some (host, port)).
  { destruct Hp as [[-> Hc]| ->]; cbn [mbind option_bind].
    - by apply SplitHostPort_join.
    - by apply SplitHostPort_join_brackets. }
  rewrite calls_client_after, Hsplit.
  destruct (client_after span err p w2) as (Hpeer & _).
  unfold peerTagged in Hpeer. rewrite Hsplit in Hpeer. destruct Hpeer as [Hport Hhost].
  split_and!; [done | done |]. intros Hne. by rewrite decide_True in Hhost.
Qed.

(** Property X12.  Conversely, whenever the client interceptor sets
    [out.port] after the invocation, the peer has an address of one of
    these two forms and the tag is its part after the last colon: the port
    holds no colon or bracket, the host no bracket, and the calls made
    after the invocation are the target tags, the status code and the
    finish, in this order. *)
Theorem client_peer_tags_from_address opts ctx method (req reply : Value)
    (cc : ClientConn) (invoker : UnaryInvoker) callopts w0 :
  ∃ span w1 err p w2 w3,
    clientRun opts ctx method req reply cc invoker callopts w0 span w1 err p w2 w3 ∧
    ∀ tc port,
      calls w3 = calls w2 ++ tc →
      CallSetTag span Ext.TargetPort (VString port) ∈ tc →
      ∃ addr host,
        Addr p = Some addr ∧
        (addr = host +:+ ":" +:+ port ∧ without ":" host ∨
         addr = "[" +:+ host +:+ "]:" +:+ port) ∧
        without "[" host ∧ without "]" host ∧
        without ":" port ∧ without "[" port ∧ without "]" port ∧
        tc = peerCalls span host port ++ closingCalls span err.
Proof.
  destruct (client_runs opts ctx method req reply cc invoker callopts w0)
    as (s1 & h1 & span & t1 & err & p & w2 & Ha & Hst & Hrun).
  eexists span, (mkWorld h1 t1), err, p, w2, _. split; [exact Hrun|].
  intros tc port Hcalls Hin.
  rewrite calls_client_after in Hcalls. apply app_inv_head in Hcalls. subst tc.
  destruct (Addr p) as [addr|] eqn:Haddr; cbn [mbind option_bind] in Hin |- *.
  2:{ by apply port_tag_not_closing in Hin. }
  destruct (Net.SplitHostPort addr) as [[host port']|] eqn:Hsplit.
  2:{ by apply port_tag_not_closing in Hin. }
  apply elem_of_app in Hin as [Hin|Hin]; [|by apply port_tag_not_closing in Hin].
  apply port_tag_peerCalls in Hin as ->.
  destruct (SplitHostPort_Some _ _ _ Hsplit) as (Hpc & Hpl & Hpr & Hl & Hr & Hshape).
  exists addr, host. by split_and!.
Qed.

End peer_address.

(** The forms of address the three properties of the peer speak of. *)
Example peer_address_forms :
  without ":" "/tmp/grpc.sock" ∧
  without ":" "127.0.0.1" ∧ without "[" "127.0.0.1" ∧ without "]" "127.0.0.1" ∧
  without "[" "::1" ∧ without "]" "::1" ∧
  without ":" "50051" ∧ without "[" "50051" ∧ without "]" "50051" ∧
  "127.0.0.1" +:+ ":" +:+ "50051" = "127.0.0.1:50051" ∧
  "[" +:+ "::1" +:+ "]:" +:+ "50051" = "[::1]:50051".
Proof. by vm_compute. Qed.
